(** * A rule-driven lexer and a token cursor with diagnostics

  Shallow embedding of [src/lexer.ts], [src/token.ts], [src/errors.ts]
  and [src/parser.ts], followed by the properties of the tokenizer and
  of the cursor that the specification states.

  Conventions of the embedding.
  - A JavaScript string is the list of its UTF-16 code units; [length]
    is the [length] property, and the string iterator used by
    [for (let char of lexeme)] walks code points ([JsString.chars]).
  - The counters of the lexer and the fields of a token are natural
    numbers: they only ever hold lengths and counts.
  - A [RegExp] is taken by what [String.prototype.match] returns for it:
    the patterns carry no [g] or [y] flag, so matching depends on the
    receiver string alone; the callbacks of the rules are functions of
    the lexeme.  Patterns with flags, which read and write [lastIndex],
    are those of the second embedding of the lexer, [Stateful]; the two
    agree on lexers without the [y] flag ([StatefulBridgeFacts]).
  - Methods that read or write [this] are functions in a state monad over
    the object; the [while] loop of [tokenize] takes a bound on the number
    of iterations. *)

From Stdlib Require Import List Arith Lia Bool NArith ZArith String Ascii.
From Stdlib Require Import DecimalString Sorted.
Import ListNotations.

Set Implicit Arguments.

(** ** JavaScript strings *)

Module JsString.

Definition jsstring := list N.

(** A literal with code units below 256. *)
Definition js (s : string) : jsstring :=
  map N_of_ascii (list_ascii_of_string s).

Fixpoint str_eqb (a b : jsstring) : bool :=
  match a, b with
  | [], [] => true
  | x :: a', y :: b' => N.eqb x y && str_eqb a' b'
  | _, _ => false
  end.

(** [Array.prototype.includes] on an array of strings. *)
Definition includes (xs : list jsstring) (x : jsstring) : bool :=
  existsb (str_eqb x) xs.

(** [s.includes(c)] for a separator of one code unit. *)
Definition includesUnit (s : jsstring) (c : N) : bool :=
  existsb (N.eqb c) s.

(** [s.slice(n)] for [0 <= n]. *)
Definition slice (s : jsstring) (n : nat) : jsstring := skipn n s.

(** [s.repeat(n)]. *)
Fixpoint repeat_ (s : jsstring) (n : nat) : jsstring :=
  match n with
  | 0 => []
  | S n' => s ++ repeat_ s n'
  end.

(** [s.split(c)] for a separator of one code unit: never empty. *)
Fixpoint split (c : N) (s : jsstring) : list jsstring :=
  match s with
  | [] => [[]]
  | x :: s' =>
    if N.eqb x c then [] :: split c s'
    else match split c s' with
         | [] => [[x]]
         | l :: ls => (x :: l) :: ls
         end
  end.

Definition isHighSurrogate (c : N) : bool :=
  (N.leb 55296 c && N.leb c 56319)%bool.
Definition isLowSurrogate (c : N) : bool :=
  (N.leb 56320 c && N.leb c 57343)%bool.

(** The string iterator: one element per code point, a surrogate pair
    being one element of two code units. *)
Fixpoint chars (s : jsstring) : list jsstring :=
  match s with
  | [] => []
  | c :: rest =>
    match rest with
    | d :: rest' =>
      if (isHighSurrogate c && isLowSurrogate d)%bool
      then [c; d] :: chars rest'
      else [c] :: chars rest
    | [] => [[c]]
    end
  end.

(** A counter in a template literal: its decimal digits. *)
Definition dec (n : nat) : jsstring :=
  js (NilZero.string_of_uint (Nat.to_uint n)).

(** [undefined] in a template literal. *)
Definition showOpt (s : option jsstring) : jsstring :=
  match s with
  | Some x => x
  | None => js "undefined"
  end.

(** Number of occurrences of a code unit. *)
Definition countUnit (c : N) (s : jsstring) : nat :=
  List.length (filter (N.eqb c) s).

End JsString.
Import JsString.

(** ** Text symbols *)

Module TextSymbol.

(** Modelled from the spec: the enum [TextSymbol] of [src/enums.ts] is not
    among the sources.  The spec splits the text "on newline", fills the
    marker line with "filler characters" and ends it with "a caret"; the
    member names are those the callers use. *)
Definition LF : N := 10.
Definition NEWLINE : jsstring := [LF].
Definition MINUS : jsstring := js "-".
Definition CARET : jsstring := js "^".

End TextSymbol.

(** ** Tokens ([src/token.ts]) *)

Section TokenDef.
Context {Value : Type}.

Record Token := mkToken {
  tokenType : jsstring;
  lexeme : jsstring;
  start : nat;
  end_ : nat;
  line : nat;
  column : nat;
  value : option Value
}.

(** The getter [length]. *)
Definition length_ (t : Token) : nat := List.length (lexeme t).

End TokenDef.
Arguments Token : clear implicits.

(** ** The lexical error ([src/errors.ts]) *)

Module Errors.

Record UnexpectedCharacterError := mkError {
  excerpt : option jsstring;
  line : nat;
  column : nat;
  message : jsstring
}.

(** The constructor.  The parameter properties are assigned after the
    [super] call, which is the last statement: [column] has then been
    raised to 1 where it was 0. *)
Definition new (excerpt : option jsstring) (line column : nat)
  : UnexpectedCharacterError :=
  let column := if column <=? 0 then 1 else column in
  let arrow := repeat_ TextSymbol.MINUS column ++ TextSymbol.CARET in
  let diagram :=
    js "Near here:" ++ [10; 9; 9]%N ++ showOpt excerpt
       ++ [10; 9; 9]%N ++ arrow in
  let errMsg :=
    js "Lexer encountered an unexpected character at column "
       ++ dec column ++ js " on line " ++ dec line ++ js ":"
       ++ [10; 9]%N ++ diagram in
  mkError excerpt line column errMsg.

End Errors.

(** ** The lexer ([src/lexer.ts]) *)

Module Lexer.
Section WithValue.
Context {Value : Type}.

(** What [s.match(re)] returns when it is not [null]: [match.index] and
    [match[0]]. *)
Record MatchResult := mkMatch { index : nat; matched : jsstring }.

Definition RegExp := jsstring -> option MatchResult.

Record TokenTemplate := mkTemplate {
  ruleType : jsstring;
  regexPattern : RegExp;
  callback : option (jsstring -> Value)
}.

Record t := mkLexer {
  templates : list TokenTemplate;
  tokens : list (Token Value);
  _start : nat;
  _line : nat;
  _column : nat
}.

(** [new Lexer(Token)]. *)
Definition new : t := mkLexer [] [] 0 0 0.

(** Methods: state passing over the lexer object. *)
Definition M (A : Type) : Type := t -> A * t.
Definition ret {A} (a : A) : M A := fun lx => (a, lx).
Definition bind {A B} (m : M A) (k : A -> M B) : M B :=
  fun lx => let (a, lx') := m lx in k a lx'.
Definition gets {A} (f : t -> A) : M A := fun lx => (f lx, lx).
Definition modify (f : t -> t) : M unit := fun lx => (tt, f lx).

Local Notation "x <- m ;; k" := (bind m (fun x => k))
  (at level 61, m at next level, right associativity).
Local Notation "m ;;; k" := (bind m (fun _ => k))
  (at level 61, right associativity).

Definition addRule (tokenType : jsstring) (regexPattern : RegExp)
           (callback : option (jsstring -> Value)) : M unit :=
  modify (fun lx =>
    mkLexer (templates lx ++ [mkTemplate tokenType regexPattern callback])
            (tokens lx) (_start lx) (_line lx) (_column lx)).

(** One turn of the loop over the characters of the lexeme. *)
Definition scanChar (pos : nat * nat) (char : jsstring) : nat * nat :=
  let (line, column) := pos in
  if str_eqb char TextSymbol.NEWLINE then (line + 1, 0)
  else (line, column + 1).

Definition match_ (template : TokenTemplate) (text : jsstring)
  : M (option (Token Value)) :=
  line <- gets _line ;;
  column <- gets _column ;;
  start <- gets _start ;;
  match regexPattern template (slice text start) with
  | None => ret None
  | Some m =>
    if negb (index m =? 0) then ret None
    else
      let lexeme := matched m in
      let end_ := start + List.length lexeme in
      let (line, column) :=
        fold_left scanChar (chars lexeme) (line, column) in
      ret (Some (mkToken (ruleType template) lexeme start end_ line column
                         (option_map (fun cb => cb lexeme)
                                     (callback template))))
  end.

Definition best (best other : Token Value) : Token Value :=
  if length_ other <=? length_ best then best else other.

(** Assignments to the fields of [this]. *)
Definition setTokens (v : list (Token Value)) : M unit :=
  modify (fun lx => mkLexer (templates lx) v (_start lx) (_line lx)
                            (_column lx)).
Definition setStart (v : nat) : M unit :=
  modify (fun lx => mkLexer (templates lx) (tokens lx) v (_line lx)
                            (_column lx)).
Definition setLine (v : nat) : M unit :=
  modify (fun lx => mkLexer (templates lx) (tokens lx) (_start lx) v
                            (_column lx)).
Definition setColumn (v : nat) : M unit :=
  modify (fun lx => mkLexer (templates lx) (tokens lx) (_start lx) (_line lx)
                            v).

Definition accept (token : Token Value) : M unit :=
  toks <- gets tokens ;; setTokens (toks ++ [token]) ;;;
  thisLine <- gets _line ;;
  (if negb (token.(line) =? thisLine) then setColumn 0
   else column <- gets _column ;;
        setColumn (column + (token.(end_) - token.(start)))) ;;;
  setStart token.(end_) ;;;
  setLine token.(line).

(** The [for] loop over the templates, [acc] being the variable [best]. *)
Fixpoint forTemplates (ts : list TokenTemplate) (text : jsstring)
         (acc : option (Token Value)) : M (option (Token Value)) :=
  match ts with
  | [] => ret acc
  | template :: rest =>
    token <- match_ template text ;;
    match token with
    | None => forTemplates rest text acc
    | Some tok =>
      match acc with
      | None => forTemplates rest text (Some tok)
      | Some b => forTemplates rest text (Some (best b tok))
      end
    end
  end.

Inductive Completion (A : Type) : Type :=
| Normal (a : A)
| Throw (e : Errors.UnexpectedCharacterError).
Arguments Throw {A} e.

(** The [while] loop; [None] when [fuel] iterations were not enough. *)
Fixpoint whileLoop (fuel : nat) (text : jsstring) (lx : t)
  : option (Completion unit * t) :=
  if _start lx <? List.length text then
    match fuel with
    | 0 => None
    | S fuel' =>
      let (found, lx1) :=
        (ts <- gets templates ;; forTemplates ts text None) lx in
      match found with
      | None =>
        Some (Throw (Errors.new
                       (nth_error (split TextSymbol.LF text) (_line lx1))
                       (_line lx1) (_column lx1)),
              lx1)
      | Some b => whileLoop fuel' text (snd (accept b lx1))
      end
    end
  else Some (Normal tt, lx).

(** The assignments at the head of [tokenize]. *)
Definition restart (lx : t) : t :=
  snd ((setTokens [] ;;; setStart 0 ;;; setColumn 0 ;;; setLine 0) lx).

Definition tokenize (fuel : nat) (text : jsstring)
           (filterTypes : list jsstring) (lx : t)
  : option (Completion (list (Token Value)) * t) :=
  match whileLoop fuel text (restart lx) with
  | None => None
  | Some (Throw e, lx') => Some (Throw e, lx')
  | Some (Normal _, lx') =>
    Some (Normal (filter (fun x => negb (includes filterTypes (tokenType x)))
                         (tokens lx')),
          lx')
  end.

End WithValue.
Arguments t : clear implicits.
Arguments TokenTemplate : clear implicits.
Arguments Throw {A} e.
End Lexer.

(** ** The cursor ([src/parser.ts] over [src/parser.base.ts]) *)

Module Parser.
Section WithValue.
Context {Value : Type}.

Record t := mkParser {
  currentPosition : nat;
  tokens : list (Token Value);
  errors : list jsstring;
  source : jsstring
}.

(** What a method can raise: an [Error] with its message, or the
    [TypeError] of a property read on [undefined]. *)
Inductive Exception : Type :=
| Error_ (message : jsstring)
| TypeError.

Inductive Outcome (A : Type) : Type :=
| Ok (a : A)
| Raise (e : Exception).
Arguments Raise {A} e.

(** Methods: state passing over the parser object, which keeps its
    writes when a method raises. *)
Definition M (A : Type) : Type := t -> Outcome A * t.
Definition ret {A} (a : A) : M A := fun p => (Ok a, p).
Definition raise {A} (e : Exception) : M A := fun p => (Raise e, p).
Definition bind {A B} (m : M A) (k : A -> M B) : M B :=
  fun p =>
    match m p with
    | (Ok a, p') => k a p'
    | (Raise e, p') => (Raise e, p')
    end.
Definition gets {A} (f : t -> A) : M A := fun p => (Ok (f p), p).
Definition modify (f : t -> t) : M unit := fun p => (Ok tt, f p).

Local Notation "x <- m ;; k" := (bind m (fun x => k))
  (at level 61, m at next level, right associativity).
Local Notation "m ;;; k" := (bind m (fun _ => k))
  (at level 61, right associativity).

(** Modelled from the spec: [lookAround] of [src/parser.base.ts], which is
    not among the sources.  "Returns the token at [position + offset], or
    none if that index is negative or >= token count.  Does not mutate
    position." *)
Definition lookAround (offset : Z) : M (option (Token Value)) :=
  pos <- gets currentPosition ;;
  toks <- gets tokens ;;
  let i := (Z.of_nat pos + offset)%Z in
  if (i <? 0)%Z then ret None else ret (nth_error toks (Z.to_nat i)).

(** Modelled from the spec: [current] of [src/parser.base.ts], the
    "convenience alias" for [lookAround(0)]. *)
Definition current : M (option (Token Value)) := lookAround 0.

(** Modelled from the spec: [advance] of [src/parser.base.ts].  "Returns
    the token at the current position and increments position by one";
    at the end there is no such token and the result is [None]. *)
Definition advance : M (option (Token Value)) :=
  pos <- gets currentPosition ;;
  toks <- gets tokens ;;
  modify (fun p => mkParser (pos + 1) (tokens p) (errors p) (source p)) ;;;
  ret (nth_error toks pos).

(** Modelled from the spec: [addError] of [src/parser.base.ts].  It
    "manually records a soft error", the message being "appended to the
    error list"; the tests read an [Error] with that message as its
    result. *)
Definition addError (errorMsg : jsstring) : M Exception :=
  modify (fun p => mkParser (currentPosition p) (tokens p)
                            (errors p ++ [errorMsg]) (source p)) ;;;
  ret (Error_ errorMsg).

Definition makeErrorMsg (errorMsg : jsstring) : M jsstring :=
  pos <- gets currentPosition ;;
  tPos <- (if negb (pos =? 0) then
             toks <- gets tokens ;;
             match nth_error toks (pos - 1) with
             | Some token => ret (line token, column token)
             | None => raise TypeError
             end
           else ret (0, 0)) ;;
  let (tLine, tCol) := tPos : nat * nat in
  src <- gets source ;;
  let arrow := repeat_ TextSymbol.MINUS tCol ++ TextSymbol.CARET in
  let excerpt :=
    if includesUnit src TextSymbol.LF
    then nth_error (split TextSymbol.LF src) tLine
    else Some src in
  let diagram :=
    js "Near here (column " ++ dec tCol ++ js " on line " ++ dec tLine
       ++ js "):" ++ [10; 9; 9]%N ++ showOpt excerpt
       ++ [10; 9; 9]%N ++ arrow in
  ret (errorMsg ++ js ": " ++ [10; 9]%N ++ diagram).

Definition check (identifier : jsstring) : M bool :=
  cur <- current ;;
  match cur with
  | Some tok => ret (str_eqb (tokenType tok) identifier)
  | None => ret false
  end.

(** Modelled from the spec: [consume] of [src/parser.base.ts].  "If
    [check(category)] holds, behaves exactly like [advance()] and returns
    the token.  Otherwise records a soft error (message appended to the
    error list) and raises a hard error carrying a rendered diagnostic";
    "the human-readable message is both appended to the soft-error list
    and wrapped into the raised value". *)
Definition consume (identifier errorMsg : jsstring)
  : M (option (Token Value)) :=
  ok <- check identifier ;;
  if ok : bool then advance
  else
    rendered <- makeErrorMsg errorMsg ;;
    e <- addError rendered ;;
    raise e.

End WithValue.
Arguments t : clear implicits.
Arguments Raise {A} e.
End Parser.

(** ** Patterns used in the examples *)

Module Patterns.

Fixpoint takeWhile (P : N -> bool) (s : jsstring) : jsstring :=
  match s with
  | c :: s' => if P c then c :: takeWhile P s' else []
  | [] => []
  end.

(** A class with [+], as [/[a-z]+/]: the leftmost longest run; [i] is the
    number of code units already passed. *)
Fixpoint classPlusFrom (P : N -> bool) (s : jsstring) (i : nat)
  : option Lexer.MatchResult :=
  match s with
  | [] => None
  | c :: s' =>
    if P c then Some (Lexer.mkMatch i (c :: takeWhile P s'))
    else classPlusFrom P s' (S i)
  end.
Definition classPlus (P : N -> bool) : Lexer.RegExp :=
  fun s => classPlusFrom P s 0.

Fixpoint isPrefix (p s : jsstring) : bool :=
  match p, s with
  | [], _ => true
  | x :: p', y :: s' => N.eqb x y && isPrefix p' s'
  | _ :: _, [] => false
  end.

(** A pattern without operators, as [/abc/]: the leftmost occurrence. *)
Fixpoint literalFrom (p s : jsstring) (i : nat)
  : option Lexer.MatchResult :=
  if isPrefix p s then Some (Lexer.mkMatch i p)
  else match s with
       | [] => None
       | _ :: s' => literalFrom p s' (S i)
       end.
Definition literal (p : jsstring) : Lexer.RegExp :=
  fun s => literalFrom p s 0.

(** A class, as [/[()]/]: the leftmost code unit of the class. *)
Fixpoint classOneFrom (P : N -> bool) (s : jsstring) (i : nat)
  : option Lexer.MatchResult :=
  match s with
  | [] => None
  | c :: s' =>
    if P c then Some (Lexer.mkMatch i [c]) else classOneFrom P s' (S i)
  end.
Definition classOne (P : N -> bool) : Lexer.RegExp :=
  fun s => classOneFrom P s 0.

Fixpoint firstPrefix (ps : list jsstring) (s : jsstring) : option jsstring :=
  match ps with
  | [] => None
  | p :: ps' => if isPrefix p s then Some p else firstPrefix ps' s
  end.

(** Alternatives without operators, as [/if|else/]: at the leftmost
    position where one of them occurs, the first that does. *)
Fixpoint anyOfFrom (ps : list jsstring) (s : jsstring) (i : nat)
  : option Lexer.MatchResult :=
  match firstPrefix ps s with
  | Some p => Some (Lexer.mkMatch i p)
  | None =>
    match s with
    | [] => None
    | _ :: s' => anyOfFrom ps s' (S i)
    end
  end.
Definition anyOf (ps : list jsstring) : Lexer.RegExp :=
  fun s => anyOfFrom ps s 0.

(** [[a-z]], [[a-zA-Z]], [\d], the white space of the examples, and the
    class of the code units of a string. *)
Definition lower (c : N) : bool := (N.leb 97 c && N.leb c 122)%bool.
Definition letter (c : N) : bool :=
  (lower c || (N.leb 65 c && N.leb c 90))%bool.
Definition digit (c : N) : bool := (N.leb 48 c && N.leb c 57)%bool.
Definition space (c : N) : bool := (N.eqb c 32 || N.eqb c 10)%bool.

(** The class [\s]. *)
Definition whitespace (c : N) : bool :=
  ((N.leb 9 c && N.leb c 13) || N.eqb c 32 || N.eqb c 160 || N.eqb c 5760
   || (N.leb 8192 c && N.leb c 8202) || N.eqb c 8232 || N.eqb c 8233
   || N.eqb c 8239 || N.eqb c 8287 || N.eqb c 12288 || N.eqb c 65279)%bool.
Definition among (cs : string) (c : N) : bool := existsb (N.eqb c) (js cs).

End Patterns.

(** ** Runs of the scan loop *)

Module Scan.
Section WithValue.
Context {Value : Type}.
Import Lexer.

(** What [match] returns and what the loop over the templates leaves in
    [best], at a given scan state. *)
Definition matchAt (tpl : TokenTemplate Value) (text : jsstring)
           (lx : Lexer.t Value) : option (Token Value) :=
  fst (match_ tpl text lx).
Definition select (text : jsstring) (lx : Lexer.t Value)
  : option (Token Value) :=
  fst (forTemplates (templates lx) text None lx).
Definition accepted (tok : Token Value) (lx : Lexer.t Value)
  : Lexer.t Value :=
  snd (accept tok lx).

(** The value of [best] after one template. *)
Definition consider (text : jsstring) (lx : Lexer.t Value)
           (acc : option (Token Value)) (tpl : TokenTemplate Value)
  : option (Token Value) :=
  match matchAt tpl text lx with
  | None => acc
  | Some tok =>
    match acc with
    | None => Some tok
    | Some b => Some (best b tok)
    end
  end.

(** The scan states of a call of [tokenize] on the lexer [lx0]: the state
    at the head of the loop, and the state after an iteration that does
    not throw. *)
Inductive Reached (text : jsstring) (lx0 : Lexer.t Value)
  : Lexer.t Value -> Prop :=
| Reached_restart : Reached text lx0 (restart lx0)
| Reached_accept lx tok :
    Reached text lx0 lx ->
    _start lx < List.length text ->
    select text lx = Some tok ->
    Reached text lx0 (accepted tok lx).

(** Where the loop stops. *)
Definition stopsAt (text : jsstring) (c : Completion unit)
           (lx : Lexer.t Value) : Prop :=
  match c with
  | Normal _ => List.length text <= _start lx
  | Throw e =>
    _start lx < List.length text
    /\ select text lx = None
    /\ e = Errors.new (nth_error (split TextSymbol.LF text) (_line lx))
                      (_line lx) (_column lx)
  end.

(** The scan state after the tokens [toks] have been accepted in turn. *)
Definition replay (lx0 : Lexer.t Value) (toks : list (Token Value))
  : Lexer.t Value :=
  fold_left (fun lx tok => accepted tok lx) toks (restart lx0).

(** What the engine guarantees of a match: [match[0]] is the substring of
    the receiver at [match.index]. *)
Definition substringAt (re : RegExp) : Prop :=
  forall s m, re s = Some m ->
    firstn (List.length (matched m)) (skipn (index m) s) = matched m.

(** A pattern that has no zero-width match. *)
Definition neverEmpty (re : RegExp) : Prop :=
  forall s m, re s = Some m -> matched m <> [].

Definition newlines (s : jsstring) : nat := countUnit TextSymbol.LF s.

(** The text after the last newline, and the number of characters in a
    text as the loop of [match] counts them. *)
Definition lastLine (s : jsstring) : jsstring :=
  last (split TextSymbol.LF s) [].
Definition charCount (s : jsstring) : nat := List.length (chars s).

(** The predicate of the final [filter]. *)
Definition kept (filterTypes : list jsstring) (x : Token Value) : bool :=
  negb (includes filterTypes (tokenType x)).

(** [l1] is [l2] with some elements left out, the others in place. *)
Inductive Subseq {A : Type} : list A -> list A -> Prop :=
| Subseq_nil : Subseq [] []
| Subseq_keep x l1 l2 : Subseq l1 l2 -> Subseq (x :: l1) (x :: l2)
| Subseq_drop x l1 l2 : Subseq l1 l2 -> Subseq l1 (x :: l2).

End WithValue.
End Scan.

(** ** Lexers and cursors of the examples *)

Module Examples.
Import Lexer Patterns.

(** [lexer.addRule(name, re)], without callback. *)
Definition rule (name : string) (re : RegExp) (lx : Lexer.t unit)
  : Lexer.t unit :=
  snd (addRule (js name) re None lx).

(** [new Lexer(Token).addRule("LETTER", /[a-z]+/)]. *)
Definition LETTER : Lexer.t unit :=
  rule "LETTER" (classPlus lower) new.

(** Rules [WORD] [/[a-z]+/], [NEWLINE] [/\n/] and [SPACE] [/[ \n]+/]. *)
Definition WORDS : Lexer.t unit :=
  rule "SPACE" (classPlus space)
    (rule "NEWLINE" (literal TextSymbol.NEWLINE)
       (rule "WORD" (classPlus lower) new)).

(** Rules [IF] [/if/], [WORD] [/[a-z]+/] and [NAME] [/[a-z]+/]. *)
Definition KEYWORDS : Lexer.t unit :=
  rule "NAME" (classPlus lower)
    (rule "WORD" (classPlus lower)
       (rule "IF" (literal (js "if")) new)).

(** The rules of the example of the specification. *)
Definition CONDITION : Lexer.t unit :=
  rule "WHITESPACE" (classPlus whitespace)
    (rule "NUMBER" (classPlus digit)
       (rule "OPERATOR" (classOne (among "<>"))
          (rule "IDENTIFIER" (classPlus letter)
             (rule "PAREN" (classOne (among "()"))
                (rule "KEYWORD" (anyOf [js "if"; js "else"]) new))))).

(** Rules of the tests of the lexer. *)
Definition TIE : Lexer.t unit :=
  rule "SECOND" (literal (js "abc")) (rule "FIRST" (literal (js "abc")) new).
Definition SHORT_LONG : Lexer.t unit :=
  rule "LONG" (classPlus lower) (rule "SHORT" (literal (js "if")) new).
Definition DIGIT : Lexer.TokenTemplate unit :=
  mkTemplate (js "DIGIT") (classPlus digit) None.

(** A rule with a callback, the length of the lexeme. *)
Definition COUNTED : Lexer.t nat :=
  snd (addRule (js "WORD") (classPlus lower) (Some (@List.length N)) new).


Definition fooBar : jsstring := js "foo" ++ TextSymbol.NEWLINE ++ js "bar".
Definition indented : jsstring := js "a" ++ TextSymbol.NEWLINE ++ js " b".

(** The tokens of the tests of the parser, and the cursor after one of
    them. *)
Definition condition : list (Token unit) :=
  [mkToken (js "KEYWORD") (js "if") 0 2 0 2 None;
   mkToken (js "PAREN") (js "(") 3 4 0 4 None;
   mkToken (js "IDENTIFIER") (js "x") 4 5 0 5 None;
   mkToken (js "OPERATOR") (js ">") 6 7 0 7 None;
   mkToken (js "NUMBER") (js "10") 8 10 0 10 None;
   mkToken (js "PAREN") (js ")") 10 11 0 11 None].

Definition cursor : Parser.t unit :=
  Parser.mkParser 1 condition [] (js "if (x > 10)").

(** The tokens returned on a text, by category and lexeme. *)
Definition run (lx : Lexer.t unit) (text : string)
           (filterTypes : list string)
  : option (list (jsstring * jsstring)) :=
  match tokenize (String.length text) (js text) (map js filterTypes) lx with
  | Some (Normal toks, _) =>
    Some (map (fun tok => (tokenType tok, lexeme tok)) toks)
  | _ => None
  end.

End Examples.

(** ** Further notions on tokens, texts and scan states *)

Module Layout.
Section WithValue.
Context {Value : Type}.

(** [toString] of [src/token.ts]. *)
Definition toString (t : Token Value) : jsstring :=
  js "Token(" ++ tokenType t ++ js ", " ++ lexeme t ++ js ", "
     ++ dec (line t) ++ js "[" ++ dec (column t) ++ js "])".

(** [s.slice(a, b)] for [0 <= a] and [0 <= b]. *)
Definition sliceBetween (s : jsstring) (a b : nat) : jsstring :=
  firstn (b - a) (skipn a s).

(** [t] lies before [u] in the text. *)
Definition precedes (t u : Token Value) : Prop :=
  end_ t <= start u /\ line t <= line u.

(** A lexeme with a newline that is its last code unit. *)
Definition endsItsLine (t : Token Value) : Prop :=
  In TextSymbol.LF (lexeme t) -> exists u, lexeme t = u ++ [TextSymbol.LF].

(** A text in which no code unit opens a surrogate pair. *)
Definition pairFree (s : jsstring) : Prop :=
  Forall (fun c => isHighSurrogate c = false) s.



End WithValue.
End Layout.

(** ** The lexer over patterns that keep state

    A [RegExp] object carries its flags and [lastIndex]; with the [g] or
    the [y] flag, matching reads and writes [lastIndex].  Here
    [text.slice(start).match(pattern)] of [src/lexer.ts] is taken as the
    language defines it, over the matcher of the pattern, and [match],
    the loop over the templates and [tokenize] are embedded once more,
    with the patterns as part of the state of the lexer. *)

Module Stateful.
Section WithValue.
Context {Value : Type}.

(** [matcher s i] is the end of the match of the pattern in [s] that
    starts at index [i], if there is one. *)
Record RegExp := mkRegExp {
  global : bool;
  sticky : bool;
  unicode : bool;
  lastIndex : nat;
  matcher : jsstring -> nat -> option nat
}.

Definition setLastIndex (v : nat) (re : RegExp) : RegExp :=
  mkRegExp (global re) (sticky re) (unicode re) v (matcher re).

(** [AdvanceStringIndex]. *)
Definition advance (s : jsstring) (i : nat) (fullUnicode : bool) : nat :=
  if fullUnicode then
    match skipn i s with
    | c :: d :: _ =>
      if (isHighSurrogate c && isLowSurrogate d)%bool then i + 2 else i + 1
    | _ => i + 1
    end
  else i + 1.

(** The loop of [RegExpBuiltinExec] from the index [i]; it ends within
    [n] turns when [n] exceeds the length of [s]. *)
Fixpoint builtinExecFrom (n : nat) (re : RegExp) (s : jsstring) (i : nat)
  : option Lexer.MatchResult * RegExp :=
  if List.length s <? i then
    (None, if (global re || sticky re)%bool then setLastIndex 0 re else re)
  else
    match matcher re s i with
    | Some e =>
      (Some (Lexer.mkMatch i (Layout.sliceBetween s i e)),
       if (global re || sticky re)%bool then setLastIndex e re else re)
    | None =>
      if sticky re then (None, setLastIndex 0 re)
      else match n with
           | 0 => (None, re)
           | S n' => builtinExecFrom n' re s (advance s i (unicode re))
           end
    end.

(** [RegExpBuiltinExec]. *)
Definition builtinExec (re : RegExp) (s : jsstring)
  : option Lexer.MatchResult * RegExp :=
  builtinExecFrom (S (List.length s)) re s
    (if (global re || sticky re)%bool then lastIndex re else 0).

(** [s.match(re)], by what [Lexer.match] reads of it.  With the [g] flag
    the value is [null] or an array of strings, whose [index] is
    [undefined]: it gives no match at index 0, and [lastIndex] is left
    at 0. *)
Definition stringMatch (s : jsstring) (re : RegExp)
  : option Lexer.MatchResult * RegExp :=
  if global re then (None, setLastIndex 0 re) else builtinExec re s.

Record TokenTemplate := mkTemplate {
  ruleType : jsstring;
  regexPattern : RegExp;
  callback : option (jsstring -> Value)
}.

Record t := mkLexer {
  templates : list TokenTemplate;
  tokens : list (Token Value);
  _start : nat;
  _line : nat;
  _column : nat
}.

Definition addRule (tokenType : jsstring) (regexPattern : RegExp)
           (callback : option (jsstring -> Value)) (lx : t) : t :=
  mkLexer (templates lx ++ [mkTemplate tokenType regexPattern callback])
          (tokens lx) (_start lx) (_line lx) (_column lx).

(** [match]: the token or [null], and the template with its pattern as
    the call leaves it. *)
Definition match_ (template : TokenTemplate) (text : jsstring) (lx : t)
  : option (Token Value) * TokenTemplate :=
  let line := _line lx in
  let column := _column lx in
  let (m, re) := stringMatch (slice text (_start lx))
                             (regexPattern template) in
  let template' :=
    mkTemplate (ruleType template) re (callback template) in
  match m with
  | None => (None, template')
  | Some m =>
    if negb (Lexer.index m =? 0) then (None, template')
    else
      let lexeme := Lexer.matched m in
      let end_ := _start lx + List.length lexeme in
      let (line, column) :=
        fold_left Lexer.scanChar (chars lexeme) (line, column) in
      (Some (mkToken (ruleType template) lexeme (_start lx) end_ line column
                     (option_map (fun cb => cb lexeme)
                                 (callback template))),
       template')
  end.

(** The [for] loop over the templates: the value of [best], and the
    templates as the calls of [match] leave them. *)
Fixpoint forTemplates (ts : list TokenTemplate) (text : jsstring)
         (acc : option (Token Value)) (lx : t)
  : option (Token Value) * list TokenTemplate :=
  match ts with
  | [] => (acc, [])
  | template :: rest =>
    let (token, template') := match_ template text lx in
    let acc' :=
      match token with
      | None => acc
      | Some tok =>
        match acc with
        | None => Some tok
        | Some b => Some (Lexer.best b tok)
        end
      end in
    let (found, rest') := forTemplates rest text acc' lx in
    (found, template' :: rest')
  end.

Definition accept (token : Token Value) (lx : t) : t :=
  mkLexer (templates lx) (tokens lx ++ [token]) (end_ token) (line token)
          (if negb (line token =? _line lx) then 0
           else _column lx + (end_ token - start token)).

Fixpoint whileLoop (fuel : nat) (text : jsstring) (lx : t)
  : option (Lexer.Completion unit * t) :=
  if _start lx <? List.length text then
    match fuel with
    | 0 => None
    | S fuel' =>
      let (found, ts) := forTemplates (templates lx) text None lx in
      let lx1 := mkLexer ts (tokens lx) (_start lx) (_line lx)
                         (_column lx) in
      match found with
      | None =>
        Some (Lexer.Throw
                (Errors.new
                   (nth_error (split TextSymbol.LF text) (_line lx1))
                   (_line lx1) (_column lx1)),
              lx1)
      | Some b => whileLoop fuel' text (accept b lx1)
      end
    end
  else Some (Lexer.Normal tt, lx).

Definition restart (lx : t) : t := mkLexer (templates lx) [] 0 0 0.

Definition tokenize (fuel : nat) (text : jsstring)
           (filterTypes : list jsstring) (lx : t)
  : option (Lexer.Completion (list (Token Value)) * t) :=
  match whileLoop fuel text (restart lx) with
  | None => None
  | Some (Lexer.Throw e, lx') => Some (Lexer.Throw e, lx')
  | Some (Lexer.Normal _, lx') =>
    Some (Lexer.Normal
            (filter (fun x => negb (includes filterTypes (tokenType x)))
                    (tokens lx')),
          lx')
  end.

(** Patterns that differ by [lastIndex] at most, and lexers that differ
    by the [lastIndex] of their patterns at most. *)
Definition sameRegExp (a b : RegExp) : Prop :=
  global a = global b /\ sticky a = sticky b /\ unicode a = unicode b
  /\ matcher a = matcher b.

Definition sameTemplate (a b : TokenTemplate) : Prop :=
  ruleType a = ruleType b /\ callback a = callback b
  /\ sameRegExp (regexPattern a) (regexPattern b).

Definition sameLexer (a b : t) : Prop :=
  Forall2 sameTemplate (templates a) (templates b)
  /\ tokens a = tokens b /\ _start a = _start b /\ _line a = _line b
  /\ _column a = _column b.

(** No pattern of the lexer has the [y] flag. *)
Definition noSticky (lx : t) : Prop :=
  Forall (fun tpl => sticky (regexPattern tpl) = false) (templates lx).

End WithValue.
Arguments t : clear implicits.
Arguments TokenTemplate : clear implicits.
End Stateful.

(** The lexer over patterns as functions, for the lexer over patterns
    with state. *)

Module StatefulBridge.
Section WithValue.
Context {Value : Type}.

(** The template [ptpl], over a pattern as a function, stands for the
    template [tpl], over a pattern with state. *)
Definition standsFor (ptpl : Lexer.TokenTemplate Value)
           (tpl : Stateful.TokenTemplate Value) : Prop :=
  Lexer.ruleType ptpl = Stateful.ruleType tpl
  /\ Lexer.callback ptpl = Stateful.callback tpl
  /\ forall s,
      Lexer.regexPattern ptpl s
      = fst (Stateful.stringMatch s (Stateful.regexPattern tpl)).

Definition lexerStandsFor (plx : Lexer.t Value) (lx : Stateful.t Value)
  : Prop :=
  Forall2 standsFor (Lexer.templates plx) (Stateful.templates lx)
  /\ Lexer.tokens plx = Stateful.tokens lx
  /\ Lexer._start plx = Stateful._start lx
  /\ Lexer._line plx = Stateful._line lx
  /\ Lexer._column plx = Stateful._column lx.

(** The lexer over patterns as functions that a lexer over patterns with
    state gives, each pattern taken as it matches from now on. *)
Definition plainTemplate (tpl : Stateful.TokenTemplate Value)
  : Lexer.TokenTemplate Value :=
  Lexer.mkTemplate (Stateful.ruleType tpl)
    (fun s => fst (Stateful.stringMatch s (Stateful.regexPattern tpl)))
    (Stateful.callback tpl).

Definition plain (lx : Stateful.t Value) : Lexer.t Value :=
  Lexer.mkLexer (map plainTemplate (Stateful.templates lx))
                (Stateful.tokens lx) (Stateful._start lx)
                (Stateful._line lx) (Stateful._column lx).

End WithValue.
End StatefulBridge.

(** Patterns with state, for the examples. *)

Module StatefulExamples.
Import Stateful.

(** The matcher of a pattern without operators, as [/a/]. *)
Definition literalAt (p s : jsstring) (i : nat) : option nat :=
  if (i <=? List.length s) && Patterns.isPrefix p (skipn i s)
  then Some (i + List.length p) else None.

(** The matcher of a class with [+], as [/[a-z]+/]. *)
Definition classPlusAt (P : N -> bool) (s : jsstring) (i : nat)
  : option nat :=
  match Patterns.takeWhile P (skipn i s) with
  | [] => None
  | run => Some (i + List.length run)
  end.

Definition new : Stateful.t unit := mkLexer [] [] 0 0 0.

(** [new Lexer(Token).addRule("A", /a/y)]. *)
Definition STICKY : Stateful.t unit :=
  addRule (js "A") (mkRegExp false true false 0 (literalAt (js "a"))) None
          new.

(** Rules [WORD] [/[a-z]+/] and [DIGITS] [/[0-9]+/g], the latter with
    its [lastIndex] set to 5. *)
Definition WORD_G : Stateful.t unit :=
  addRule (js "DIGITS")
          (mkRegExp true false false 5 (classPlusAt Patterns.digit)) None
    (addRule (js "WORD")
             (mkRegExp false false false 0 (classPlusAt Patterns.lower))
             None new).

End StatefulExamples.

Unset Implicit Arguments.

(** * Facts about strings *)

Module JsStringFacts.

Lemma str_eqb_eq (a b : jsstring) : str_eqb a b = true <-> a = b.
Proof.
  revert b; induction a as [|x a IH]; intros [|y b]; simpl;
    try (split; [discriminate | discriminate]); try tauto.
  rewrite andb_true_iff, N.eqb_eq, IH.
  split; [intros [-> ->]; reflexivity | intros H; inversion H; auto].
Qed.

Lemma str_eqb_refl (a : jsstring) : str_eqb a a = true.
Proof. apply str_eqb_eq; reflexivity. Qed.

Lemma includes_In (xs : list jsstring) (x : jsstring) :
  includes xs x = true <-> In x xs.
Proof.
  unfold includes; rewrite existsb_exists; split.
  - intros (y & Hy & E); apply str_eqb_eq in E; subst; exact Hy.
  - intros H; exists x; split; [exact H | apply str_eqb_refl].
Qed.

Lemma includesUnit_In (s : jsstring) (c : N) :
  includesUnit s c = true <-> In c s.
Proof.
  unfold includesUnit; rewrite existsb_exists; split.
  - intros (y & Hy & E); apply N.eqb_eq in E; subst; exact Hy.
  - intros H; exists c; split; [exact H | apply N.eqb_refl].
Qed.

Lemma split_cons (c : N) (s : jsstring) :
  exists l ls, split c s = l :: ls.
Proof.
  destruct s as [|x s]; simpl; [eauto|].
  destruct (N.eqb x c); [eauto|].
  destruct (split c s); eauto.
Qed.

Lemma split_length (c : N) (s : jsstring) :
  List.length (split c s) = S (countUnit c s).
Proof.
  unfold countUnit; induction s as [|x s IH]; simpl; [reflexivity|].
  rewrite (N.eqb_sym c x).
  destruct (N.eqb x c); simpl; [rewrite IH; reflexivity|].
  destruct (split_cons c s) as (l & ls & E); rewrite E in *; exact IH.
Qed.

Lemma split_without (c : N) (s : jsstring) :
  includesUnit s c = false -> split c s = [s].
Proof.
  unfold includesUnit; induction s as [|x s IH]; simpl; [reflexivity|].
  rewrite (N.eqb_sym c x); intros H; apply orb_false_iff in H as [Hx Hs].
  rewrite Hx, (IH Hs); reflexivity.
Qed.

Lemma countUnit_app (c : N) (a b : jsstring) :
  countUnit c (a ++ b) = countUnit c a + countUnit c b.
Proof. unfold countUnit; rewrite filter_app, length_app; reflexivity. Qed.

Lemma countUnit_le (c : N) (s : jsstring) (n : nat) :
  countUnit c (firstn n s) <= countUnit c s.
Proof.
  rewrite <- (firstn_skipn n s) at 2; rewrite countUnit_app; lia.
Qed.

Lemma repeat_length (s : jsstring) (n : nat) :
  List.length (repeat_ s n) = n * List.length s.
Proof. induction n; simpl; [|rewrite length_app, IHn]; lia. Qed.

End JsStringFacts.

(** * Facts about the lexer *)

Module LexerFacts.
Section WithValue.
Context {Value : Type}.
Import Lexer Scan JsStringFacts.

Implicit Types (lx : Lexer.t Value) (tok : Token Value)
         (tpl : TokenTemplate Value) (text : jsstring).

Local Arguments N.eqb : simpl never.
Local Arguments N.leb : simpl never.

(** *** [match] *)

Lemma match_state tpl text lx : snd (match_ tpl text lx) = lx.
Proof.
  unfold match_, bind, gets, ret; simpl.
  destruct (regexPattern tpl (slice text (_start lx))) as [m|]; [|reflexivity].
  destruct (negb (index m =? 0)); [reflexivity|].
  destruct (fold_left scanChar (chars (matched m)) (_line lx, _column lx));
    reflexivity.
Qed.

Lemma match_eta tpl text lx : match_ tpl text lx = (matchAt tpl text lx, lx).
Proof.
  unfold matchAt; rewrite <- (match_state tpl text lx) at 3.
  apply surjective_pairing.
Qed.

(** What a token returned by [match] is made of. *)
Lemma matchAt_Some tpl text lx tok :
  matchAt tpl text lx = Some tok ->
  regexPattern tpl (slice text (_start lx)) = Some (mkMatch 0 (lexeme tok))
  /\ tokenType tok = ruleType tpl
  /\ start tok = _start lx
  /\ end_ tok = _start lx + List.length (lexeme tok)
  /\ (line tok, column tok)
     = fold_left scanChar (chars (lexeme tok)) (_line lx, _column lx)
  /\ value tok = option_map (fun cb => cb (lexeme tok)) (callback tpl).
Proof.
  unfold matchAt, match_, bind, gets, ret; simpl.
  destruct (regexPattern tpl (slice text (_start lx))) as [[i s]|];
    [|discriminate]; simpl.
  destruct (Nat.eqb_spec i 0) as [->|]; simpl; [|discriminate].
  destruct (fold_left scanChar (chars s) (_line lx, _column lx)) as [l c]
    eqn:E; simpl.
  intros H; injection H as <-; simpl; rewrite E; repeat split.
Qed.

(** *** The loop over the templates *)

Lemma forTemplates_eta ts text acc lx :
  forTemplates ts text acc lx = (fold_left (consider text lx) ts acc, lx).
Proof.
  revert acc; induction ts as [|tpl ts IH]; intros acc; simpl;
    [reflexivity|].
  unfold bind, consider; rewrite match_eta.
  destruct (matchAt tpl text lx) as [tok|]; [|apply IH].
  destruct acc; apply IH.
Qed.

Lemma select_fold text lx :
  select text lx = fold_left (consider text lx) (templates lx) None.
Proof. unfold select; rewrite forTemplates_eta; reflexivity. Qed.

Lemma best_cases (b o : Token Value) :
  (best b o = b /\ length_ o <= length_ b)
  \/ (best b o = o /\ length_ b < length_ o).
Proof.
  unfold best; destruct (Nat.leb_spec (length_ o) (length_ b)); auto.
Qed.

(** Starting from a candidate [b], the loop keeps [b] unless a later
    template matches strictly longer; it then holds the first template
    of the greatest length. *)
Lemma fold_consider_Some text lx ts b :
  exists tok,
    fold_left (consider text lx) ts (Some b) = Some tok
    /\ ((tok = b
         /\ forall tpl tok', In tpl ts -> matchAt tpl text lx = Some tok' ->
              length_ tok' <= length_ b)
        \/ (length_ b < length_ tok
            /\ exists before tpl after,
                ts = before ++ tpl :: after
                /\ matchAt tpl text lx = Some tok
                /\ (forall tpl' tok', In tpl' before ->
                      matchAt tpl' text lx = Some tok' ->
                      length_ tok' < length_ tok)
                /\ (forall tpl' tok', In tpl' after ->
                      matchAt tpl' text lx = Some tok' ->
                      length_ tok' <= length_ tok))).
Proof.
  revert b; induction ts as [|tpl ts IH]; intros b; simpl.
  - exists b; split; [reflexivity|]; left; split; [reflexivity|].
    intros ? ? [].
  - unfold consider at 2.
    destruct (matchAt tpl text lx) as [o|] eqn:Em.
    + destruct (best_cases b o) as [[-> Hle]|[-> Hlt]].
      * destruct (IH b)
          as (tok & E
              & [[-> Hall]|(Hlt & bf & t' & af & -> & Ht & Hb & Ha)]);
          eexists; (split; [exact E|]).
        -- left; split; [reflexivity|].
           intros tpl' tok' [<-|Hin] Hm;
             [rewrite Em in Hm; injection Hm as <-; exact Hle | eauto].
        -- right; split; [exact Hlt|].
           exists (tpl :: bf), t', af; repeat split; auto.
           intros tpl' tok' [<-|Hin] Hm;
             [rewrite Em in Hm; injection Hm as <-; lia | eauto].
      * destruct (IH o)
          as (tok & E
              & [[-> Hall]|(Hlt' & bf & t' & af & -> & Ht & Hb & Ha)]);
          eexists; (split; [exact E|]); right.
        -- split; [exact Hlt|].
           exists [], tpl, ts; repeat split; auto.
           intros ? ? [].
        -- split; [lia|].
           exists (tpl :: bf), t', af; repeat split; auto.
           intros tpl' tok' [<-|Hin] Hm;
             [rewrite Em in Hm; injection Hm as <-; lia | eauto].
    + destruct (IH b)
        as (tok & E
            & [[-> Hall]|(Hlt & bf & t' & af & -> & Ht & Hb & Ha)]);
        eexists; (split; [exact E|]).
      * left; split; [reflexivity|].
        intros tpl' tok' [<-|Hin] Hm; [congruence | eauto].
      * right; split; [exact Hlt|].
        exists (tpl :: bf), t', af; repeat split; auto.
        intros tpl' tok' [<-|Hin] Hm; [congruence | eauto].
Qed.

Lemma fold_consider_None text lx ts :
  match fold_left (consider text lx) ts None with
  | None => forall tpl, In tpl ts -> matchAt tpl text lx = None
  | Some tok =>
    exists before tpl after,
      ts = before ++ tpl :: after
      /\ matchAt tpl text lx = Some tok
      /\ (forall tpl' tok', In tpl' before ->
            matchAt tpl' text lx = Some tok' -> length_ tok' < length_ tok)
      /\ (forall tpl' tok', In tpl' after ->
            matchAt tpl' text lx = Some tok' -> length_ tok' <= length_ tok)
  end.
Proof.
  induction ts as [|tpl ts IH]; simpl; [intros ? []|].
  unfold consider at 2.
  destruct (matchAt tpl text lx) as [o|] eqn:Em.
  - destruct (fold_consider_Some text lx ts o)
      as (tok & -> & [[-> Hall]|(Hlt & bf & t' & af & -> & Ht & Hb & Ha)]).
    + exists [], tpl, ts; repeat split; auto. intros ? ? [].
    + exists (tpl :: bf), t', af; repeat split; auto.
      intros tpl' tok' [<-|Hin] Hm;
        [rewrite Em in Hm; injection Hm as <-; lia | eauto].
  - destruct (fold_left (consider text lx) ts None) as [tok|].
    + destruct IH as (bf & t' & af & -> & Ht & Hb & Ha).
      exists (tpl :: bf), t', af; repeat split; auto.
      intros tpl' tok' [<-|Hin] Hm; [congruence | eauto].
    + intros tpl' [<-|Hin]; auto.
Qed.

(** *** Counting lines and columns *)

Lemma jsstring_ind2 (P : jsstring -> Prop) :
  P [] -> (forall c, P [c]) ->
  (forall c d s, P s -> P (d :: s) -> P (c :: d :: s)) ->
  forall s, P s.
Proof.
  intros H0 H1 H2 s.
  assert (H : P s /\ forall c, P (c :: s)); [|apply H].
  induction s as [|d s [IHs IHc]]; split; auto.
Qed.

Lemma scanChar_unit (l c : nat) (x : N) :
  scanChar (l, c) [x]
  = if N.eqb x TextSymbol.LF then (l + 1, 0) else (l, c + 1).
Proof. simpl; rewrite andb_true_r; reflexivity. Qed.

Lemma scanChar_pair (l c : nat) (x y : N) :
  scanChar (l, c) [x; y] = (l, c + 1).
Proof. simpl; rewrite andb_false_r; reflexivity. Qed.

Lemma surrogate_not_LF (x : N) :
  isHighSurrogate x = true \/ isLowSurrogate x = true ->
  N.eqb x TextSymbol.LF = false.
Proof.
  unfold isHighSurrogate, isLowSurrogate, TextSymbol.LF.
  rewrite !andb_true_iff, !N.leb_le; intros H.
  apply N.eqb_neq; lia.
Qed.

Lemma newlines_cons (x : N) s :
  newlines (x :: s)
  = (if N.eqb x TextSymbol.LF then 1 else 0) + newlines s.
Proof.
  unfold newlines, countUnit; simpl.
  rewrite (N.eqb_sym TextSymbol.LF x); destruct (N.eqb x TextSymbol.LF);
    reflexivity.
Qed.

Lemma includesUnit_cons (x : N) s :
  includesUnit (x :: s) TextSymbol.LF
  = (N.eqb x TextSymbol.LF || includesUnit s TextSymbol.LF)%bool.
Proof.
  unfold includesUnit; simpl; rewrite (N.eqb_sym TextSymbol.LF x);
    reflexivity.
Qed.

Lemma split_two s :
  includesUnit s TextSymbol.LF = true ->
  exists l l' ls, split TextSymbol.LF s = l :: l' :: ls.
Proof.
  induction s as [|x s IH]; [discriminate|].
  rewrite includesUnit_cons; simpl.
  destruct (N.eqb x TextSymbol.LF); simpl.
  - intros _; destruct (split_cons TextSymbol.LF s) as (l & ls & ->); eauto.
  - intros H; destruct (IH H) as (l & l' & ls & ->); eauto.
Qed.

Lemma lastLine_cons (x : N) s :
  lastLine (x :: s)
  = if (N.eqb x TextSymbol.LF || includesUnit s TextSymbol.LF)%bool
    then lastLine s else x :: s.
Proof.
  unfold lastLine; simpl.
  destruct (N.eqb x TextSymbol.LF) eqn:Ex; simpl.
  - destruct (split_cons TextSymbol.LF s) as (l & ls & ->); reflexivity.
  - destruct (includesUnit s TextSymbol.LF) eqn:Es.
    + destruct (split_two s Es) as (l & l' & ls & ->); reflexivity.
    + rewrite (split_without _ _ Es); reflexivity.
Qed.

(** The loop over the characters of a lexeme: the line grows by the
    newlines of the lexeme; the column is the number of characters after
    the last of them or, without one, grows by the number of
    characters. *)
Lemma scan_chars s (l c : nat) :
  fold_left scanChar (chars s) (l, c)
  = (l + newlines s,
     if includesUnit s TextSymbol.LF then charCount (lastLine s)
     else c + charCount s).
Proof.
  revert l c; induction s as [|x|x y s IHs IHy] using jsstring_ind2;
    intros l c.
  - simpl; f_equal; unfold newlines, countUnit, charCount; simpl; lia.
  - cbn [chars fold_left]; rewrite scanChar_unit, newlines_cons,
      includesUnit_cons, lastLine_cons.
    destruct (N.eqb x TextSymbol.LF); simpl; f_equal;
      unfold newlines, countUnit, charCount; simpl; lia.
  - cbn [chars].
    destruct (isHighSurrogate x && isLowSurrogate y)%bool eqn:Ep.
    + apply andb_true_iff in Ep as [Hx Hy].
      assert (Ex := surrogate_not_LF x (or_introl Hx)).
      assert (Ey := surrogate_not_LF y (or_intror Hy)).
      cbn [fold_left]; rewrite scanChar_pair, IHs.
      rewrite !newlines_cons, !lastLine_cons, !includesUnit_cons, Ex, Ey.
      cbn [orb Nat.add].
      destruct (includesUnit s TextSymbol.LF) eqn:Es; [reflexivity|].
      f_equal; unfold charCount; cbn [chars]; rewrite Hx, Hy; simpl; lia.
    + cbn [fold_left]; rewrite scanChar_unit.
      rewrite (newlines_cons x), (includesUnit_cons x), (lastLine_cons x).
      destruct (N.eqb x TextSymbol.LF) eqn:Ex; rewrite IHy; cbn [orb].
      * f_equal; [lia|].
        destruct (includesUnit (y :: s) TextSymbol.LF) eqn:Es;
          [reflexivity|].
        unfold lastLine; rewrite (split_without _ _ Es); reflexivity.
      * f_equal.
        destruct (includesUnit (y :: s) TextSymbol.LF) eqn:Es;
          [reflexivity|].
        unfold charCount; cbn [chars]; rewrite Ep; simpl; lia.
Qed.

(** *** [accept] and the [while] loop *)

Lemma accepted_eta tok lx :
  accepted tok lx
  = mkLexer (templates lx) (tokens lx ++ [tok]) (end_ tok) (line tok)
            (if line tok =? _line lx
             then _column lx + (end_ tok - start tok) else 0).
Proof.
  unfold accepted, accept, bind, gets, setTokens, setColumn, setStart,
    setLine, modify; simpl.
  destruct (line tok =? _line lx); reflexivity.
Qed.

Lemma accepted_templates tok lx : templates (accepted tok lx) = templates lx.
Proof. rewrite accepted_eta; reflexivity. Qed.

Lemma accepted_tokens tok lx : tokens (accepted tok lx) = tokens lx ++ [tok].
Proof. rewrite accepted_eta; reflexivity. Qed.

Lemma accepted_start tok lx : _start (accepted tok lx) = end_ tok.
Proof. rewrite accepted_eta; reflexivity. Qed.

Lemma accepted_line tok lx : _line (accepted tok lx) = line tok.
Proof. rewrite accepted_eta; reflexivity. Qed.

Lemma accepted_column tok lx :
  _column (accepted tok lx)
  = if line tok =? _line lx then _column lx + (end_ tok - start tok) else 0.
Proof. rewrite accepted_eta; reflexivity. Qed.

Lemma restart_eta lx : restart lx = mkLexer (templates lx) [] 0 0 0.
Proof. reflexivity. Qed.

Lemma whileLoop_0 text lx :
  whileLoop 0 text lx
  = if _start lx <? List.length text then None else Some (Normal tt, lx).
Proof. reflexivity. Qed.

Lemma whileLoop_S fuel text lx :
  whileLoop (S fuel) text lx
  = if _start lx <? List.length text then
      match select text lx with
      | None =>
        Some (Throw (Errors.new
                       (nth_error (split TextSymbol.LF text) (_line lx))
                       (_line lx) (_column lx)), lx)
      | Some b => whileLoop fuel text (accepted b lx)
      end
    else Some (Normal tt, lx).
Proof.
  cbn [whileLoop]; unfold bind, gets, select.
  rewrite !forTemplates_eta; cbn [fst].
  destruct (_start lx <? List.length text); [|reflexivity].
  destruct (fold_left (consider text lx) (templates lx) None); reflexivity.
Qed.

(** More iterations allowed do not change a result. *)
Lemma whileLoop_mono fuel fuel' text lx r :
  whileLoop fuel text lx = Some r -> fuel <= fuel' ->
  whileLoop fuel' text lx = Some r.
Proof.
  revert fuel' lx; induction fuel as [|fuel IH]; intros fuel' lx H Hle.
  - rewrite whileLoop_0 in H.
    destruct fuel'; [rewrite whileLoop_0|rewrite whileLoop_S];
      destruct (_start lx <? List.length text); congruence.
  - destruct fuel' as [|fuel']; [lia|].
    rewrite whileLoop_S in *.
    destruct (_start lx <? List.length text); [|exact H].
    destruct (select text lx); [|exact H].
    apply IH; [exact H | lia].
Qed.

Lemma whileLoop_det fuel fuel' text lx r r' :
  whileLoop fuel text lx = Some r -> whileLoop fuel' text lx = Some r' ->
  r = r'.
Proof.
  intros H H'; destruct (Nat.le_ge_cases fuel fuel') as [Hle|Hle].
  - eapply whileLoop_mono in H; [|exact Hle]; congruence.
  - eapply whileLoop_mono in H'; [|exact Hle]; congruence.
Qed.

Lemma whileLoop_Reached text lx0 fuel lx c lx' :
  Reached text lx0 lx ->
  whileLoop fuel text lx = Some (c, lx') ->
  Reached text lx0 lx' /\ stopsAt text c lx'.
Proof.
  revert lx; induction fuel as [|fuel IH]; intros lx HR H.
  - rewrite whileLoop_0 in H.
    destruct (Nat.ltb_spec (_start lx) (List.length text)); [discriminate|].
    injection H as <- <-; split; [exact HR | exact H0].
  - rewrite whileLoop_S in H.
    destruct (Nat.ltb_spec (_start lx) (List.length text)).
    + destruct (select text lx) as [b|] eqn:Es.
      * apply (IH (accepted b lx)); [|exact H].
        apply Reached_accept; assumption.
      * injection H as <- <-; split; [exact HR|]; repeat split; assumption.
    + injection H as <- <-; split; [exact HR | exact H0].
Qed.

(** *** What a reached state records *)

Lemma Reached_templates text lx0 lx :
  Reached text lx0 lx -> templates lx = templates lx0.
Proof. induction 1; [reflexivity | rewrite accepted_templates; assumption]. Qed.

Lemma replay_snoc lx0 (toks : list (Token Value)) tok :
  replay lx0 (toks ++ [tok]) = accepted tok (replay lx0 toks).
Proof. unfold replay; rewrite fold_left_app; reflexivity. Qed.

Lemma Reached_replay text lx0 lx :
  Reached text lx0 lx -> lx = replay lx0 (tokens lx).
Proof.
  induction 1 as [|lx tok HR IH Hlt Hs]; [reflexivity|].
  rewrite accepted_tokens, replay_snoc, <- IH; reflexivity.
Qed.

Lemma snoc_split {A} (l pre post : list A) (x y : A) :
  l ++ [x] = pre ++ y :: post ->
  (post = [] /\ pre = l /\ y = x)
  \/ exists post', post = post' ++ [x] /\ l = pre ++ y :: post'.
Proof.
  destruct post as [|z post] using rev_ind.
  - intros H; apply app_inj_tail in H as [-> ->]; auto.
  - clear IHpost; intros H.
    change (l ++ [x] = pre ++ (y :: post) ++ [z]) in H.
    rewrite app_assoc in H; apply app_inj_tail in H as [-> ->].
    right; eauto.
Qed.

(** Every token of a reached state was selected at the state that its
    predecessors lead to. *)
Lemma Reached_history text lx0 lx :
  Reached text lx0 lx ->
  forall pre tok post, tokens lx = pre ++ tok :: post ->
    Reached text lx0 (replay lx0 pre)
    /\ _start (replay lx0 pre) < List.length text
    /\ select text (replay lx0 pre) = Some tok.
Proof.
  induction 1 as [|lx tok' HR IH Hlt Hs]; intros pre tok post E.
  - destruct pre; discriminate.
  - rewrite accepted_tokens in E.
    apply snoc_split in E as [(-> & -> & ->)|(post' & -> & E)].
    + rewrite <- (Reached_replay _ _ _ HR); auto.
    + eauto.
Qed.

Lemma select_Some text lx tok :
  select text lx = Some tok ->
  exists tpl, In tpl (templates lx) /\ matchAt tpl text lx = Some tok.
Proof.
  rewrite select_fold; intros E.
  generalize (fold_consider_None text lx (templates lx)); rewrite E.
  intros (bf & tpl & af & -> & Hm & _); exists tpl; split; [|exact Hm].
  apply in_or_app; right; left; reflexivity.
Qed.

Lemma select_None text lx :
  select text lx = None ->
  forall tpl, In tpl (templates lx) -> matchAt tpl text lx = None.
Proof.
  rewrite select_fold; intros E.
  generalize (fold_consider_None text lx (templates lx)); rewrite E; auto.
Qed.

(** *** Termination *)

Lemma select_advances text lx tok :
  (forall tpl, In tpl (templates lx) -> neverEmpty (regexPattern tpl)) ->
  select text lx = Some tok -> _start lx < end_ tok.
Proof.
  intros Hne Hs; apply select_Some in Hs as (tpl & Hin & Hm).
  apply matchAt_Some in Hm as (Hre & _ & _ & -> & _).
  apply (Hne tpl Hin) in Hre; simpl in Hre.
  destruct (lexeme tok); [congruence | simpl; lia].
Qed.

Lemma whileLoop_terminates text fuel lx :
  (forall tpl, In tpl (templates lx) -> neverEmpty (regexPattern tpl)) ->
  List.length text - _start lx <= fuel ->
  exists r, whileLoop fuel text lx = Some r.
Proof.
  revert lx; induction fuel as [|fuel IH]; intros lx Hne Hle.
  - rewrite whileLoop_0.
    destruct (Nat.ltb_spec (_start lx) (List.length text)); [lia | eauto].
  - rewrite whileLoop_S.
    destruct (Nat.ltb_spec (_start lx) (List.length text)); [|eauto].
    destruct (select text lx) as [b|] eqn:Es; [|eauto].
    apply IH; [rewrite accepted_templates; exact Hne|].
    rewrite accepted_start; apply (select_advances _ _ _ Hne) in Es; lia.
Qed.

(** *** Reached states of sound patterns *)

Lemma matchAt_prefix tpl text lx tok :
  substringAt (regexPattern tpl) ->
  matchAt tpl text lx = Some tok ->
  _start lx <= List.length text ->
  end_ tok <= List.length text
  /\ firstn (end_ tok) text = firstn (_start lx) text ++ lexeme tok.
Proof.
  intros Hs Hm Hle; apply matchAt_Some in Hm as (Hre & _ & _ & -> & _).
  apply Hs in Hre; simpl in Hre; unfold slice in Hre.
  assert (Hlen : List.length (lexeme tok)
                 <= List.length text - _start lx).
  { rewrite <- Hre at 1; rewrite length_firstn, length_skipn; lia. }
  split; [lia|].
  rewrite <- (firstn_skipn (_start lx) text) at 1.
  rewrite <- (firstn_length_le text Hle) at 1.
  rewrite firstn_app_2, Hre; reflexivity.
Qed.

Lemma matchAt_line tpl text lx tok :
  matchAt tpl text lx = Some tok ->
  line tok = _line lx + newlines (lexeme tok).
Proof.
  intros Hm; apply matchAt_Some in Hm as (_ & _ & _ & _ & Hpos & _).
  rewrite scan_chars in Hpos; congruence.
Qed.

Lemma matchAt_column tpl text lx tok :
  matchAt tpl text lx = Some tok ->
  column tok
  = if includesUnit (lexeme tok) TextSymbol.LF
    then charCount (lastLine (lexeme tok))
    else _column lx + charCount (lexeme tok).
Proof.
  intros Hm; apply matchAt_Some in Hm as (_ & _ & _ & _ & Hpos & _).
  rewrite scan_chars in Hpos; congruence.
Qed.

Lemma Reached_covers text lx0 lx :
  (forall tpl, In tpl (templates lx0) -> substringAt (regexPattern tpl)) ->
  Reached text lx0 lx ->
  _start lx <= List.length text
  /\ List.concat (map lexeme (tokens lx)) = firstn (_start lx) text
  /\ _line lx = newlines (firstn (_start lx) text).
Proof.
  intros Hs; induction 1 as [|lx tok HR (Hle & Hcat & Hline) Hlt Hsel].
  - simpl; split; [lia|]; split; reflexivity.
  - rewrite <- (Reached_templates _ _ _ HR) in Hs.
    apply select_Some in Hsel as (tpl & Hin & Hm).
    destruct (matchAt_prefix _ _ _ _ (Hs tpl Hin) Hm Hle) as (Hend & Hpre).
    rewrite accepted_start, accepted_tokens, accepted_line.
    split; [exact Hend|]; split.
    + rewrite map_app, concat_app, Hcat, Hpre; simpl.
      rewrite app_nil_r; reflexivity.
    + rewrite (matchAt_line _ _ _ _ Hm), Hline, Hpre.
      unfold newlines; rewrite countUnit_app; reflexivity.
Qed.

Lemma lastLine_after (a s : jsstring) :
  lastLine (a ++ TextSymbol.LF :: s) = lastLine s.
Proof.
  induction a as [|x a IH]; simpl.
  - rewrite lastLine_cons, N.eqb_refl; reflexivity.
  - rewrite lastLine_cons, IH.
    replace (includesUnit (a ++ TextSymbol.LF :: s) TextSymbol.LF)
      with true; [rewrite orb_true_r; reflexivity|].
    symmetry; apply includesUnit_In, in_or_app; right; left; reflexivity.
Qed.

Lemma lastLine_without (s : jsstring) :
  includesUnit s TextSymbol.LF = false -> lastLine s = s.
Proof.
  intros H; unfold lastLine; rewrite (split_without _ _ H); reflexivity.
Qed.

(** *** The whole of [tokenize] *)

Lemma tokenize_inv fuel text filterTypes lx c lx' :
  tokenize fuel text filterTypes lx = Some (c, lx') ->
  exists c0,
    whileLoop fuel text (restart lx) = Some (c0, lx')
    /\ Reached text lx lx'
    /\ stopsAt text c0 lx'
    /\ match c0 with
       | Normal _ => c = Normal (filter (kept filterTypes) (tokens lx'))
       | Throw e => c = Throw e
       end.
Proof.
  unfold tokenize.
  destruct (whileLoop fuel text (restart lx)) as [[c0 lx1]|] eqn:E;
    [|discriminate].
  destruct (whileLoop_Reached _ _ _ _ _ _ (Reached_restart text lx) E)
    as (HR & Hstop).
  destruct c0 as [[]|e]; intros H; injection H as <- <-;
    [exists (Normal tt) | exists (Throw e)]; auto.
Qed.

End WithValue.
End LexerFacts.

(** * Facts about the patterns of the examples *)

Module PatternFacts.
Import Lexer Scan Patterns.

Local Arguments N.eqb : simpl never.

Lemma takeWhile_prefix (P : N -> bool) (s : jsstring) :
  firstn (List.length (takeWhile P s)) s = takeWhile P s.
Proof.
  induction s as [|c s IH]; simpl; [reflexivity|].
  destruct (P c); simpl; [rewrite IH|]; reflexivity.
Qed.

Lemma classPlusFrom_sound (P : N -> bool) (s : jsstring) :
  forall i m, classPlusFrom P s i = Some m ->
    i <= index m
    /\ firstn (List.length (matched m)) (skipn (index m - i) s) = matched m.
Proof.
  induction s as [|c s IH]; intros i m; simpl; [discriminate|].
  destruct (P c).
  - intros H; injection H as <-; simpl; split; [lia|].
    rewrite Nat.sub_diag; simpl; rewrite takeWhile_prefix; reflexivity.
  - intros H; apply IH in H as (Hle & E); split; [lia|].
    replace (index m - i) with (S (index m - S i)) by lia; exact E.
Qed.

Lemma classPlus_substringAt (P : N -> bool) : substringAt (classPlus P).
Proof.
  intros s m H; apply classPlusFrom_sound in H as (_ & E).
  rewrite Nat.sub_0_r in E; exact E.
Qed.

Lemma classPlus_neverEmpty (P : N -> bool) : neverEmpty (classPlus P).
Proof.
  unfold classPlus; intros s; generalize 0; induction s as [|c s IH];
    intros i m; simpl; [discriminate|].
  destruct (P c); [intros H; injection H as <-; discriminate | apply IH].
Qed.

Lemma isPrefix_firstn (p s : jsstring) :
  isPrefix p s = true -> firstn (List.length p) s = p.
Proof.
  revert s; induction p as [|x p IH]; intros [|y s]; simpl;
    try reflexivity; try discriminate.
  intros H; apply andb_true_iff in H as (Hx & Hp).
  apply N.eqb_eq in Hx; subst; rewrite (IH _ Hp); reflexivity.
Qed.

Lemma literalFrom_sound (p s : jsstring) :
  forall i m, literalFrom p s i = Some m ->
    matched m = p /\ i <= index m
    /\ firstn (List.length p) (skipn (index m - i) s) = p.
Proof.
  induction s as [|c s IH]; intros i m; simpl.
  - destruct (isPrefix p []) eqn:E; [|discriminate].
    intros H; injection H as <-; simpl; repeat split; [lia|].
    rewrite Nat.sub_diag; apply isPrefix_firstn; exact E.
  - destruct (isPrefix p (c :: s)) eqn:E.
    + intros H; injection H as <-; simpl; repeat split; [lia|].
      rewrite Nat.sub_diag; apply isPrefix_firstn; exact E.
    + intros H; apply IH in H as (Hm & Hle & Hp); repeat split;
        [exact Hm | lia |].
      replace (index m - i) with (S (index m - S i)) by lia; exact Hp.
Qed.

Lemma literal_substringAt (p : jsstring) : substringAt (literal p).
Proof.
  intros s m H; apply literalFrom_sound in H as (-> & _ & E).
  rewrite Nat.sub_0_r in E; exact E.
Qed.

Lemma literal_neverEmpty (p : jsstring) :
  p <> [] -> neverEmpty (literal p).
Proof.
  intros Hp s m H; apply literalFrom_sound in H as (-> & _); exact Hp.
Qed.

(** The rule sets of the examples are sound and have no empty match. *)
Lemma LETTER_sound tpl :
  In tpl (templates Examples.LETTER) -> substringAt (regexPattern tpl).
Proof. intros [<-|[]]; apply classPlus_substringAt. Qed.

Lemma LETTER_neverEmpty tpl :
  In tpl (templates Examples.LETTER) -> neverEmpty (regexPattern tpl).
Proof. intros [<-|[]]; apply classPlus_neverEmpty. Qed.

Lemma WORDS_sound tpl :
  In tpl (templates Examples.WORDS) -> substringAt (regexPattern tpl).
Proof.
  intros [<-|[<-|[<-|[]]]];
    [apply classPlus_substringAt | apply literal_substringAt
     | apply classPlus_substringAt].
Qed.

Lemma WORDS_neverEmpty tpl :
  In tpl (templates Examples.WORDS) -> neverEmpty (regexPattern tpl).
Proof.
  intros [<-|[<-|[<-|[]]]];
    [apply classPlus_neverEmpty | apply literal_neverEmpty; discriminate
     | apply classPlus_neverEmpty].
Qed.

End PatternFacts.

(** * The properties of the tokenizer *)

Module LexerSpec.
Import Lexer Scan JsStringFacts LexerFacts.

Section WithValue.
Context {Value : Type}.

Implicit Types (lx : Lexer.t Value) (tok : Token Value)
         (tpl : TokenTemplate Value) (text : jsstring).

Lemma filter_kept_nil (toks : list (Token Value)) :
  filter (kept []) toks = toks.
Proof.
  induction toks as [|tok toks IH]; simpl; [|rewrite IH]; reflexivity.
Qed.

Lemma kept_true filterTypes tok :
  kept filterTypes tok = true <-> ~ In (tokenType tok) filterTypes.
Proof.
  unfold kept; rewrite negb_true_iff, <- not_true_iff_false, includes_In.
  reflexivity.
Qed.

Lemma Subseq_filter {A} (f : A -> bool) (l : list A) :
  Subseq (filter f l) l.
Proof.
  induction l as [|x l IH]; simpl; [constructor|].
  destruct (f x); constructor; exact IH.
Qed.

(** C1. For a rule set whose patterns have no zero-width match, matched by
    an engine that returns substrings of its input, and any input text,
    [tokenize] completes: within as many iterations as the text has code
    units it either returns, and the lexemes of the tokens it has accepted
    concatenate to the text, or throws the lexical error, at an offset
    where no rule matches.  The completion does not depend on the bound,
    so that it is one or the other; on the empty text it is the empty
    sequence, with no iteration. *)
Theorem tokenize_covers_or_throws lx text filterTypes :
  (forall tpl, In tpl (templates lx) -> substringAt (regexPattern tpl)) ->
  (forall tpl, In tpl (templates lx) -> neverEmpty (regexPattern tpl)) ->
  exists c lx',
    (forall fuel, List.length text <= fuel ->
       tokenize fuel text filterTypes lx = Some (c, lx'))
    /\ (forall fuel r,
          tokenize fuel text filterTypes lx = Some r -> r = (c, lx'))
    /\ match c with
       | Normal toks =>
         toks = filter (kept filterTypes) (tokens lx')
         /\ List.concat (map lexeme (tokens lx')) = text
         /\ (filterTypes = [] -> List.concat (map lexeme toks) = text)
       | Throw e =>
         _start lx' < List.length text
         /\ forall tpl, In tpl (templates lx) -> matchAt tpl text lx' = None
       end
    /\ (text = [] -> c = Normal []).
Proof.
  intros Hsound Hne.
  destruct (whileLoop_terminates text (List.length text) (restart lx) Hne)
    as ([c0 lx'] & Hrun); [simpl; lia|].
  set (c := match c0 with
            | Normal _ => Normal (filter (kept filterTypes) (tokens lx'))
            | Throw e => Throw e
            end).
  assert (Htok : forall fuel, List.length text <= fuel ->
            tokenize fuel text filterTypes lx = Some (c, lx')).
  { intros fuel Hle; unfold tokenize.
    rewrite (whileLoop_mono _ _ _ _ _ Hrun Hle).
    subst c; destruct c0 as [[]|e]; reflexivity. }
  exists c, lx'; split; [exact Htok|]; split; [|split].
  - intros fuel r H; specialize (Htok _ (Nat.le_max_l (List.length text) fuel)).
    unfold tokenize in H, Htok.
    destruct (whileLoop fuel text (restart lx)) as [r1|] eqn:E1;
      [|discriminate].
    rewrite (whileLoop_mono _ _ _ _ _ E1 (Nat.le_max_r _ fuel)) in Htok.
    congruence.
  - destruct (whileLoop_Reached _ _ _ _ _ _ (Reached_restart text lx) Hrun)
      as (HR & Hstop).
    destruct (Reached_covers _ _ _ Hsound HR) as (Hle & Hcat & _).
    subst c; destruct c0 as [[]|e]; simpl in Hstop.
    + assert (Hall : List.concat (map lexeme (tokens lx')) = text).
      { rewrite Hcat, firstn_all2; [reflexivity | exact Hstop]. }
      split; [reflexivity|]; split; [exact Hall|].
      intros ->; rewrite filter_kept_nil; exact Hall.
    + destruct Hstop as (Hlt & Hsel & _); split; [exact Hlt|].
      rewrite <- (Reached_templates _ _ _ HR).
      apply select_None; exact Hsel.
  - intros ->; specialize (Htok 0 (Nat.le_refl _)).
    unfold tokenize in Htok; rewrite whileLoop_0 in Htok; simpl in Htok.
    congruence.
Qed.

(** C2. Every token that a run of [tokenize] has accepted was selected
    at the scan state its predecessors lead to: it is what [match]
    returns there for one of the rules, every rule registered before that
    one matches strictly shorter there or not at all, and no rule
    registered after it matches longer. *)
Theorem longest_then_first_registered fuel text filterTypes lx c lx' :
  tokenize fuel text filterTypes lx = Some (c, lx') ->
  forall pre tok post, tokens lx' = pre ++ tok :: post ->
    exists before tpl after,
      templates lx = before ++ tpl :: after
      /\ matchAt tpl text (replay lx pre) = Some tok
      /\ tokenType tok = ruleType tpl
      /\ _start (replay lx pre) = start tok
      /\ (forall tpl' tok', In tpl' before ->
            matchAt tpl' text (replay lx pre) = Some tok' ->
            length_ tok' < length_ tok)
      /\ (forall tpl' tok', In tpl' after ->
            matchAt tpl' text (replay lx pre) = Some tok' ->
            length_ tok' <= length_ tok).
Proof.
  intros Hrun pre tok post Htoks.
  apply tokenize_inv in Hrun as (c0 & _ & HR & _).
  destruct (Reached_history _ _ _ HR _ _ _ Htoks) as (HRp & _ & Hsel).
  rewrite select_fold, (Reached_templates _ _ _ HRp) in Hsel.
  generalize (fold_consider_None text (replay lx pre) (templates lx)).
  rewrite Hsel; intros (bf & tpl & af & E & Hm & Hb & Ha).
  exists bf, tpl, af; split; [exact E|]; split; [exact Hm|].
  apply matchAt_Some in Hm as (_ & Hty & Hst & _).
  repeat split; auto.
Qed.

(** C4. In every token that [tokenize] returns, [end - start] is the
    length of the lexeme; when no category is filtered, the first token
    starts at 0 and each token starts where its predecessor ends. *)
Theorem token_offsets fuel text filterTypes lx toks lx' :
  tokenize fuel text filterTypes lx = Some (Normal toks, lx') ->
  Forall (fun tok => start tok <= end_ tok
                     /\ end_ tok - start tok = length_ tok) toks
  /\ (filterTypes = [] ->
      (forall tok rest, toks = tok :: rest -> start tok = 0)
      /\ (forall pre t1 t2 post,
            toks = pre ++ t1 :: t2 :: post -> start t2 = end_ t1)).
Proof.
  intros Hrun; apply tokenize_inv in Hrun as (c0 & _ & HR & _ & Hc).
  assert (Htoks : toks = filter (kept filterTypes) (tokens lx')).
  { destruct c0; congruence. }
  clear Hc; split.
  - apply Forall_forall; intros tok Hin.
    rewrite Htoks in Hin; apply filter_In in Hin as (Hin & _).
    apply in_split in Hin as (pre & post & E).
    destruct (Reached_history _ _ _ HR _ _ _ E) as (_ & _ & Hsel).
    apply select_Some in Hsel as (tpl & _ & Hm).
    apply matchAt_Some in Hm as (_ & _ & -> & -> & _).
    unfold length_; lia.
  - intros ->; rewrite filter_kept_nil in Htoks; subst toks; split.
    + intros tok rest E.
      destruct (Reached_history _ _ _ HR [] _ _ E) as (_ & _ & Hsel).
      apply select_Some in Hsel as (tpl & _ & Hm).
      apply matchAt_Some in Hm as (_ & _ & -> & _); reflexivity.
    + intros pre t1 t2 post E.
      assert (E' : tokens lx' = (pre ++ [t1]) ++ t2 :: post).
      { rewrite <- app_assoc; exact E. }
      destruct (Reached_history _ _ _ HR _ _ _ E') as (_ & _ & Hsel).
      apply select_Some in Hsel as (tpl & _ & Hm).
      apply matchAt_Some in Hm as (_ & _ & -> & _).
      rewrite replay_snoc; apply accepted_start.
Qed.

(** C8. A successful [tokenize] returns the tokens it has accepted, the
    ones the same call without filter returns, less those whose category
    is among [filterTypes]: none of these is returned, every other one
    is, and the tokens returned stand in the order of their acceptance. *)
Theorem filter_law fuel text filterTypes lx toks lx' :
  tokenize fuel text filterTypes lx = Some (Normal toks, lx') ->
  tokenize fuel text [] lx = Some (Normal (tokens lx'), lx')
  /\ toks = filter (kept filterTypes) (tokens lx')
  /\ (forall tok, In tok toks -> ~ In (tokenType tok) filterTypes)
  /\ (forall tok, In tok (tokens lx') ->
        ~ In (tokenType tok) filterTypes -> In tok toks)
  /\ Subseq toks (tokens lx').
Proof.
  intros Hrun; apply tokenize_inv in Hrun as (c0 & Hloop & _ & _ & Hc).
  assert (Htoks : toks = filter (kept filterTypes) (tokens lx')).
  { destruct c0; congruence. }
  split; [|split; [exact Htoks|]].
  - unfold tokenize; rewrite Hloop; destruct c0 as [[]|e];
      [rewrite filter_kept_nil; reflexivity | discriminate].
  - subst toks; split; [|split].
    + intros tok Hin; apply filter_In in Hin as (_ & Hk).
      apply kept_true; exact Hk.
    + intros tok Hin Hk; apply filter_In; split; [exact Hin|].
      apply kept_true; exact Hk.
    + apply Subseq_filter.
Qed.

(** Over patterns that are functions of the receiver, [tokenize] starts
    from the rules alone: whatever an earlier call on the same instance
    did, a call gives what it gives on an instance with the same rules,
    and two calls in a row with the same text and the same filter complete
    alike, whatever the bounds they ran under.  The patterns that keep
    state are those of [Stateful]. *)
Lemma tokenize_starts_from_rules lx fuel0 text0 filter0 c0 lx0 :
  tokenize fuel0 text0 filter0 lx = Some (c0, lx0) ->
  forall text filterTypes,
    (forall fuel, tokenize fuel text filterTypes lx0
                  = tokenize fuel text filterTypes lx)
    /\ (forall fuel1 fuel2 c1 lx1 c2 lx2,
          tokenize fuel1 text filterTypes lx0 = Some (c1, lx1) ->
          tokenize fuel2 text filterTypes lx1 = Some (c2, lx2) ->
          c1 = c2).
Proof.
  intros Hrun text filterTypes.
  assert (Hsame : forall fuel f t (a b : Lexer.t Value),
            templates a = templates b ->
            tokenize fuel t f a = tokenize fuel t f b).
  { intros fuel f t a b E; unfold tokenize; rewrite !restart_eta, E;
      reflexivity. }
  assert (Hkeep : forall fuel f t (a b : Lexer.t Value) c,
            tokenize fuel t f a = Some (c, b) -> templates b = templates a).
  { intros fuel f t a b c H; apply tokenize_inv in H as (_ & _ & HR & _).
    apply (Reached_templates _ _ _ HR). }
  split.
  - intros fuel; apply Hsame, (Hkeep _ _ _ _ _ _ Hrun).
  - intros fuel1 fuel2 c1 lx1 c2 lx2 H1 H2.
    rewrite (Hsame _ _ _ _ _ (Hkeep _ _ _ _ _ _ H1)) in H2.
    unfold tokenize in H1, H2.
    destruct (whileLoop fuel1 text (restart lx0)) as [[d1 s1]|] eqn:E1;
      [|discriminate].
    destruct (whileLoop fuel2 text (restart lx0)) as [[d2 s2]|] eqn:E2;
      [|discriminate].
    assert (E := whileLoop_det _ _ _ _ _ _ E1 E2).
    injection E as <- <-.
    destruct d1 as [[]|e]; congruence.
Qed.

(** C10. [match] leaves the lexer as it found it, whether it returns a
    token or [null]; the line and the column of the token it returns are
    those of the scan state moved over the characters of the lexeme. *)
Theorem match_leaves_lexer tpl text lx :
  snd (match_ tpl text lx) = lx
  /\ match fst (match_ tpl text lx) with
     | Some tok =>
       (line tok, column tok)
       = fold_left scanChar (chars (lexeme tok)) (_line lx, _column lx)
     | None => True
     end.
Proof.
  split; [apply match_state|].
  destruct (fst (match_ tpl text lx)) as [tok|] eqn:E; [|exact I].
  apply (matchAt_Some tpl text lx tok) in E as (_ & _ & _ & _ & Hpos & _).
  exact Hpos.
Qed.

Lemma newlines_In (s : jsstring) :
  In TextSymbol.LF s -> 1 <= newlines s.
Proof.
  intros H; unfold newlines, countUnit.
  assert (Hin : In TextSymbol.LF (filter (N.eqb TextSymbol.LF) s)).
  { apply filter_In; split; [exact H | apply N.eqb_refl]. }
  destruct (filter (N.eqb TextSymbol.LF) s); [destruct Hin | simpl; lia].
Qed.

(** C3, as amended.  Let a token whose lexeme contains a newline be
    accepted in a run of [tokenize] over sound patterns, and another token
    follow it.  The line of the following token is the number of newlines
    of the text up to its end, and accepting the first token changes the
    line.  When the first lexeme ends with its newline, accepting it leaves
    the column tracker at 0, its consumed width not added, and the column of
    the following token is the number of characters after the last newline
    of the text up to its end.  [accept] adds the consumed width when the
    line is unchanged. *)
Theorem newline_law fuel text filterTypes lx c lx' :
  (forall tpl, In tpl (templates lx) -> substringAt (regexPattern tpl)) ->
  tokenize fuel text filterTypes lx = Some (c, lx') ->
  forall pre t1 t2 post, tokens lx' = pre ++ t1 :: t2 :: post ->
    In TextSymbol.LF (lexeme t1) ->
    line t2 = newlines (firstn (end_ t2) text)
    /\ line t1 <> _line (replay lx pre)
    /\ ((exists u, lexeme t1 = u ++ [TextSymbol.LF]) ->
        _column (accepted t1 (replay lx pre)) = 0
        /\ column t2 = charCount (lastLine (firstn (end_ t2) text)))
    /\ (forall tok st,
          line tok = _line st ->
          _column (accepted tok st) = _column st + (end_ tok - start tok)).
Proof.
  intros Hsound Hrun pre t1 t2 post E HLF.
  apply tokenize_inv in Hrun as (c0 & _ & HR & _).
  assert (E2 : tokens lx' = (pre ++ [t1]) ++ t2 :: post).
  { rewrite <- app_assoc; exact E. }
  destruct (Reached_history _ _ _ HR _ _ _ E) as (HR1 & _ & Hsel1).
  destruct (Reached_history _ _ _ HR _ _ _ E2) as (HR2 & _ & Hsel2).
  rewrite replay_snoc in HR2, Hsel2.
  set (st1 := replay lx pre) in *.
  set (st2 := accepted t1 st1) in *.
  assert (Hs1 := Hsound); assert (Hs2 := Hsound).
  rewrite <- (Reached_templates _ _ _ HR1) in Hs1.
  rewrite <- (Reached_templates _ _ _ HR2) in Hs2.
  apply select_Some in Hsel1 as (tpl1 & Hin1 & Hm1).
  apply select_Some in Hsel2 as (tpl2 & Hin2 & Hm2).
  destruct (Reached_covers _ _ _ Hsound HR1) as (Hle1 & _ & _).
  destruct (Reached_covers _ _ _ Hsound HR2) as (Hle2 & _ & Hline2).
  destruct (matchAt_prefix _ _ _ _ (Hs1 _ Hin1) Hm1 Hle1) as (_ & Hpre1).
  destruct (matchAt_prefix _ _ _ _ (Hs2 _ Hin2) Hm2 Hle2) as (_ & Hpre2).
  assert (Hchange : line t1 <> _line st1).
  { rewrite (matchAt_line _ _ _ _ Hm1).
    generalize (newlines_In _ HLF); lia. }
  assert (Hcol : _column st2 = 0).
  { unfold st2; rewrite accepted_column.
    destruct (Nat.eqb_spec (line t1) (_line st1)); [contradiction|].
    reflexivity. }
  split; [|split; [exact Hchange|split]].
  - rewrite (matchAt_line _ _ _ _ Hm2), Hline2, Hpre2.
    unfold newlines; rewrite countUnit_app; reflexivity.
  - intros (u & Hu); split; [exact Hcol|].
    rewrite (matchAt_column _ _ _ _ Hm2), Hcol, Hpre2.
    unfold st2 at 1; rewrite accepted_start, Hpre1, Hu.
    rewrite app_assoc, <- app_assoc; simpl.
    rewrite lastLine_after.
    destruct (includesUnit (lexeme t2) TextSymbol.LF) eqn:Ei;
      [reflexivity|].
    rewrite (lastLine_without _ Ei); reflexivity.
  - intros tok st Hsame; rewrite accepted_column, Hsame, Nat.eqb_refl.
    reflexivity.
Qed.

(** C5, as amended.  When [tokenize] throws, no rule matches at the offset
    of the scan state, which is inside the text; the error carries the
    line of that state, the element of that index of the text split on
    newline, a line of the text when the patterns are sound, and the
    column of that state, or 1 when that column is 0. *)
Theorem lexical_error_report fuel text filterTypes lx e lx' :
  tokenize fuel text filterTypes lx = Some (Throw e, lx') ->
  _start lx' < List.length text
  /\ (forall tpl, In tpl (templates lx) -> matchAt tpl text lx' = None)
  /\ Errors.line e = _line lx'
  /\ Errors.excerpt e = nth_error (split TextSymbol.LF text) (_line lx')
  /\ Errors.column e = (if _column lx' =? 0 then 1 else _column lx')
  /\ ((forall tpl, In tpl (templates lx) ->
         substringAt (regexPattern tpl)) ->
      exists l, Errors.excerpt e = Some l).
Proof.
  intros Hrun; apply tokenize_inv in Hrun as (c0 & _ & HR & Hstop & Hc).
  destruct c0 as [[]|e0]; [discriminate|].
  injection Hc as <-; destruct Hstop as (Hlt & Hsel & ->).
  split; [exact Hlt|]; split.
  { rewrite <- (Reached_templates _ _ _ HR); apply select_None, Hsel. }
  split; [reflexivity|]; split; [reflexivity|]; split.
  { unfold Errors.new; simpl.
    destruct (_column lx') as [|n]; reflexivity. }
  intros Hsound; simpl.
  destruct (Reached_covers _ _ _ Hsound HR) as (_ & _ & Hline).
  destruct (nth_error (split TextSymbol.LF text) (_line lx')) as [l|] eqn:E;
    [eauto|].
  apply nth_error_None in E; rewrite split_length, Hline in E.
  generalize (countUnit_le TextSymbol.LF text (_start lx')).
  unfold newlines in E; lia.
Qed.

End WithValue.

Lemma tokenize_covers_or_throws_witness :
  (forall tpl, In tpl (templates Examples.WORDS) ->
     substringAt (regexPattern tpl))
  /\ (forall tpl, In tpl (templates Examples.WORDS) ->
        neverEmpty (regexPattern tpl))
  /\ exists toks lx',
       tokenize 7 Examples.fooBar [] Examples.WORDS
       = Some (Normal toks, lx')
       /\ List.concat (map lexeme toks) = Examples.fooBar.
Proof.
  split; [exact PatternFacts.WORDS_sound|].
  split; [exact PatternFacts.WORDS_neverEmpty|].
  destruct (tokenize_covers_or_throws Examples.WORDS Examples.fooBar []
              PatternFacts.WORDS_sound PatternFacts.WORDS_neverEmpty)
    as (c & lx' & Hrun & _ & Hc & _).
  specialize (Hrun 7 (Nat.le_refl 7)).
  destruct c as [toks|e].
  - exists toks, lx'; split; [exact Hrun|].
    destruct Hc as (_ & _ & Hcat); exact (Hcat eq_refl).
  - exfalso; vm_compute in Hrun; discriminate Hrun.
Defined.

Lemma longest_then_first_registered_witness :
  let iffy := mkToken (js "WORD") (js "iffy") 0 4 0 4 (@None unit) in
  let lx' := Lexer.mkLexer (templates Examples.KEYWORDS) [iffy] 4 0 4 in
  tokenize 1 (js "iffy") [] Examples.KEYWORDS = Some (Normal [iffy], lx')
  /\ tokens lx' = [] ++ iffy :: []
  /\ exists before tpl after,
       templates Examples.KEYWORDS = before ++ tpl :: after
       /\ ruleType tpl = js "WORD"
       /\ List.length before = 1.
Proof.
  intros iffy lx'.
  assert (H : tokenize 1 (js "iffy") [] Examples.KEYWORDS
              = Some (Normal [iffy], lx')) by (vm_compute; reflexivity).
  assert (E : tokens lx' = [] ++ iffy :: []) by reflexivity.
  split; [exact H|]; split; [exact E|].
  destruct (longest_then_first_registered _ _ _ _ _ _ H _ _ _ E)
    as (bf & tpl & af & Et & _ & Hty & _ & Hb & Ha).
  exists bf, tpl, af; split; [exact Et|]; split; [symmetry; exact Hty|].
  destruct bf as [|t0 [|t1 bf]]; [| reflexivity |]; exfalso.
  - injection Et as <- _; vm_compute in Hty; discriminate Hty.
  - injection Et as <- <- _.
    specialize (Hb _ iffy (or_intror (or_introl eq_refl)) eq_refl).
    exact (Nat.lt_irrefl _ Hb).
Defined.

Lemma token_offsets_witness :
  exists toks lx',
    tokenize 3 Examples.fooBar [] Examples.WORDS = Some (Normal toks, lx')
    /\ map (fun tok => (start tok, end_ tok)) toks = [(0, 3); (3, 4); (4, 7)]
    /\ Forall (fun tok => start tok <= end_ tok
                          /\ end_ tok - start tok = length_ tok) toks.
Proof.
  eexists; eexists.
  assert (H : tokenize 3 Examples.fooBar [] Examples.WORDS = Some (_, _))
    by (vm_compute; reflexivity).
  split; [exact H|]; split; [reflexivity|].
  exact (proj1 (token_offsets _ _ _ _ _ _ H)).
Defined.

Lemma filter_law_witness :
  exists toks lx',
    tokenize 3 Examples.fooBar [js "NEWLINE"] Examples.WORDS
    = Some (Normal toks, lx')
    /\ map lexeme toks = [js "foo"; js "bar"]
    /\ Subseq toks (tokens lx').
Proof.
  eexists; eexists.
  assert (H : tokenize 3 Examples.fooBar [js "NEWLINE"] Examples.WORDS
              = Some (_, _)) by (vm_compute; reflexivity).
  split; [exact H|]; split; [reflexivity|].
  exact (proj2 (proj2 (proj2 (proj2 (filter_law _ _ _ _ _ _ H))))).
Defined.

Lemma newline_law_witness :
  let foo := mkToken (js "WORD") (js "foo") 0 3 0 3 (@None unit) in
  let nl := mkToken (js "NEWLINE") TextSymbol.NEWLINE 3 4 1 0 None in
  let bar := mkToken (js "WORD") (js "bar") 4 7 1 3 None in
  let lx' := Lexer.mkLexer (templates Examples.WORDS) [foo; nl; bar] 7 1 3 in
  (forall tpl, In tpl (templates Examples.WORDS) ->
     substringAt (regexPattern tpl))
  /\ tokenize 3 Examples.fooBar [] Examples.WORDS
     = Some (Normal [foo; nl; bar], lx')
  /\ tokens lx' = [foo] ++ nl :: bar :: []
  /\ In TextSymbol.LF (lexeme nl)
  /\ line bar = newlines (firstn (end_ bar) Examples.fooBar)
  /\ _column (accepted nl (replay Examples.WORDS [foo])) = 0
  /\ column bar = charCount (lastLine (firstn (end_ bar) Examples.fooBar)).
Proof.
  intros foo nl bar lx'.
  assert (H : tokenize 3 Examples.fooBar [] Examples.WORDS
              = Some (Normal [foo; nl; bar], lx'))
    by (vm_compute; reflexivity).
  assert (E : tokens lx' = [foo] ++ nl :: bar :: []) by reflexivity.
  assert (HLF : In TextSymbol.LF (lexeme nl)) by (left; reflexivity).
  split; [exact PatternFacts.WORDS_sound|].
  split; [exact H|]; split; [exact E|]; split; [exact HLF|].
  destruct (newline_law _ _ _ _ _ _ PatternFacts.WORDS_sound H _ _ _ _ E HLF)
    as (Hline & _ & Hend & _).
  split; [exact Hline|].
  apply Hend; exists []; reflexivity.
Defined.

(** Against C3 as stated.  After "foo", the newline token changes the
    line and is one unit wide, and the tracker is left at 0, not at
    0 + 1.  In "a", newline, " b" the white space is one token with a
    character after its newline: "b" gets column 1, with two characters
    after the last newline. *)
Lemma newline_law_counterexample :
  let foo := mkToken (js "WORD") (js "foo") 0 3 0 3 (@None unit) in
  let nl := mkToken (js "NEWLINE") TextSymbol.NEWLINE 3 4 1 0 None in
  let st := replay Examples.WORDS [foo] in
  let a := mkToken (js "WORD") (js "a") 0 1 0 1 (@None unit) in
  let ws := mkToken (js "SPACE") (TextSymbol.NEWLINE ++ js " ") 1 3 1 1 None in
  let b := mkToken (js "WORD") (js "b") 3 4 1 1 None in
  (select Examples.fooBar st = Some nl
   /\ line nl <> _line st
   /\ _column (accepted nl st) <> 0 + (end_ nl - start nl))
  /\ (option_map fst (tokenize 3 Examples.indented [] Examples.WORDS)
      = Some (Normal [a; ws; b])
      /\ In TextSymbol.LF (lexeme ws)
      /\ column b
         <> charCount (lastLine (firstn (end_ b) Examples.indented))).
Proof.
  intros foo nl st a ws b; split; [split; [|split]|split; [|split]].
  - vm_compute; reflexivity.
  - vm_compute; discriminate.
  - vm_compute; discriminate.
  - vm_compute; reflexivity.
  - left; reflexivity.
  - vm_compute; discriminate.
Qed.

Lemma lexical_error_report_witness :
  let e := Errors.new (Some (js "abc123")) 0 3 in
  let abc := mkToken (js "LETTER") (js "abc") 0 3 0 3 (@None unit) in
  let lx' := Lexer.mkLexer (templates Examples.LETTER) [abc] 3 0 3 in
  tokenize 2 (js "abc123") [] Examples.LETTER = Some (Throw e, lx')
  /\ Errors.line e = 0
  /\ Errors.excerpt e = Some (js "abc123")
  /\ Errors.column e = 3.
Proof.
  intros e abc lx'.
  assert (H : tokenize 2 (js "abc123") [] Examples.LETTER
              = Some (Throw e, lx')) by (vm_compute; reflexivity).
  split; [exact H|].
  destruct (lexical_error_report _ _ _ _ _ _ H)
    as (_ & _ & Hl & He & Hc & _).
  split; [exact Hl|]; split; [exact He | exact Hc].
Defined.

(** Against C5 as stated.  No rule matches at the head of "1": the column
    of the scan state is 0 and the error carries column 1. *)
Lemma lexical_error_column_counterexample :
  let e := Errors.new (Some (js "1")) 0 0 in
  let lx' := Lexer.mkLexer (templates Examples.LETTER) [] 0 0 0 in
  tokenize 1 (js "1") [] Examples.LETTER = Some (Throw e, lx')
  /\ _column lx' = 0
  /\ Errors.column e = 1
  /\ Errors.column e <> _column lx'.
Proof.
  intros e lx'; split; [vm_compute; reflexivity|].
  split; [reflexivity|]; split; [reflexivity|discriminate].
Qed.

End LexerSpec.

(** * The properties of the cursor *)

Module ParserSpec.
Import Parser.

Section WithValue.
Context {Value : Type}.

Implicit Types (p : Parser.t Value) (tok : Token Value).

Lemma current_eta p :
  current p = (Ok (nth_error (tokens p) (currentPosition p)), p).
Proof.
  unfold current, lookAround, bind, gets, ret; simpl.
  rewrite Z.add_0_r.
  destruct (Z.ltb_spec (Z.of_nat (currentPosition p)) 0); [lia|].
  rewrite Nat2Z.id; reflexivity.
Qed.

Lemma check_eta identifier p :
  check identifier p
  = (Ok match nth_error (tokens p) (currentPosition p) with
        | Some tok => str_eqb (tokenType tok) identifier
        | None => false
        end, p).
Proof.
  unfold check, bind; rewrite current_eta.
  destruct (nth_error (tokens p) (currentPosition p)); reflexivity.
Qed.

Lemma advance_eta p :
  advance p
  = (Ok (nth_error (tokens p) (currentPosition p)),
     mkParser (currentPosition p + 1) (tokens p) (errors p) (source p)).
Proof. reflexivity. Qed.

Lemma marker_length (n : nat) :
  List.length (repeat_ TextSymbol.MINUS n ++ TextSymbol.CARET) = n + 1.
Proof.
  rewrite length_app, JsStringFacts.repeat_length; simpl; lia.
Qed.

Lemma makeErrorMsg_ok p errorMsg :
  currentPosition p <= List.length (tokens p) ->
  exists rendered, makeErrorMsg errorMsg p = (Ok rendered, p).
Proof.
  intros Hpos; unfold makeErrorMsg, bind, gets, ret, raise.
  destruct (currentPosition p) as [|k] eqn:Ek; simpl; [eauto|].
  rewrite Nat.sub_0_r.
  destruct (nth_error (tokens p) k) as [token|] eqn:En; [eauto|].
  apply nth_error_None in En; lia.
Qed.

Lemma consume_eta identifier errorMsg p :
  consume identifier errorMsg p
  = if match nth_error (tokens p) (currentPosition p) with
       | Some tok => str_eqb (tokenType tok) identifier
       | None => false
       end
    then advance p
    else match makeErrorMsg errorMsg p with
         | (Ok rendered, p') =>
           (Raise (Error_ rendered),
            mkParser (currentPosition p') (tokens p')
                     (errors p' ++ [rendered]) (source p'))
         | (Raise e, p') => (Raise e, p')
         end.
Proof.
  unfold consume, bind at 1; rewrite check_eta.
  destruct (match nth_error (tokens p) (currentPosition p) with
            | Some tok => str_eqb (tokenType tok) identifier
            | None => false
            end); [reflexivity|].
  unfold bind at 1.
  destruct (makeErrorMsg errorMsg p) as [[rendered|e] p']; reflexivity.
Qed.

(** C7. With the cursor inside its tokens, [makeErrorMsg] raises nothing
    and leaves the parser as it is.  It takes the line and the column of
    the token before the current position, or 0 and 0 at position 0; for
    excerpt the element of that line of the source split on newline, or
    the whole source when it has no newline; for marker that many filler
    characters and a caret; and it returns the message, a header naming the
    column and the line, the excerpt and the marker, in this order. *)
Theorem makeErrorMsg_renders p errorMsg :
  currentPosition p <= List.length (tokens p) ->
  exists tLine tCol excerpt marker,
    match currentPosition p with
    | 0 => tLine = 0 /\ tCol = 0
    | S k =>
      exists token,
        nth_error (tokens p) k = Some token
        /\ tLine = line token /\ tCol = column token
    end
    /\ excerpt
       = (if includesUnit (source p) TextSymbol.LF
          then showOpt (nth_error (split TextSymbol.LF (source p)) tLine)
          else source p)
    /\ marker = repeat_ TextSymbol.MINUS tCol ++ TextSymbol.CARET
    /\ List.length marker = tCol + 1
    /\ makeErrorMsg errorMsg p
       = (Ok (errorMsg ++ js ": " ++ [10; 9]%N
                ++ js "Near here (column " ++ dec tCol
                ++ js " on line " ++ dec tLine ++ js "):"
                ++ [10; 9; 9]%N ++ excerpt ++ [10; 9; 9]%N ++ marker),
          p).
Proof.
  intros Hpos.
  unfold makeErrorMsg, bind, gets, ret, raise.
  destruct (currentPosition p) as [|k] eqn:Ek; simpl.
  - exists 0, 0; eexists; eexists; split; [split; reflexivity|].
    split; [reflexivity|]; split; [reflexivity|]; split; [apply marker_length|].
    destruct (includesUnit (source p) TextSymbol.LF); reflexivity.
  - rewrite Nat.sub_0_r.
    destruct (nth_error (tokens p) k) as [token|] eqn:En.
    + exists (line token), (column token); eexists; eexists.
      split; [exists token; repeat split|].
      split; [reflexivity|]; split; [reflexivity|].
      split; [apply marker_length|].
      destruct (includesUnit (source p) TextSymbol.LF); reflexivity.
    + apply nth_error_None in En; lia.
Qed.

(** C6.  With the cursor inside its tokens: if [check] holds, [consume] is
    [advance], and returns the current token with the position moved by
    one; otherwise it raises the error that carries the diagnostic of
    [makeErrorMsg], with exactly one message more in the error list and
    the position, the tokens and the source as they were. *)
Theorem consume_advances_or_raises p identifier errorMsg :
  currentPosition p <= List.length (tokens p) ->
  match check identifier p with
  | (Ok true, _) =>
    consume identifier errorMsg p = advance p
    /\ exists tok,
        nth_error (tokens p) (currentPosition p) = Some tok
        /\ consume identifier errorMsg p
           = (Ok (Some tok),
              mkParser (currentPosition p + 1) (tokens p) (errors p)
                       (source p))
  | (Ok false, _) =>
    exists rendered appended,
      makeErrorMsg errorMsg p = (Ok rendered, p)
      /\ consume identifier errorMsg p
         = (Raise (Error_ rendered),
            mkParser (currentPosition p) (tokens p)
                     (errors p ++ [appended]) (source p))
  | (Raise _, _) => False
  end.
Proof.
  intros Hpos; rewrite check_eta, consume_eta.
  destruct (nth_error (tokens p) (currentPosition p)) as [tok|] eqn:En.
  - destruct (str_eqb (tokenType tok) identifier).
    + split; [reflexivity|].
      exists tok; split; [reflexivity|].
      rewrite advance_eta, En; reflexivity.
    + destruct (makeErrorMsg_ok p errorMsg Hpos) as (rendered & E).
      exists rendered, rendered; split; [exact E|]; rewrite E; reflexivity.
  - destruct (makeErrorMsg_ok p errorMsg Hpos) as (rendered & E).
    exists rendered, rendered; split; [exact E|]; rewrite E; reflexivity.
Qed.

End WithValue.

Lemma makeErrorMsg_renders_witness :
  currentPosition Examples.cursor <= List.length (tokens Examples.cursor)
  /\ makeErrorMsg (js "Parse error") Examples.cursor
     = (Ok (js "Parse error: " ++ [10; 9]%N
              ++ js "Near here (column 2 on line 0):" ++ [10; 9; 9]%N
              ++ js "if (x > 10)" ++ [10; 9; 9]%N ++ js "--^"),
        Examples.cursor).
Proof.
  assert (H : currentPosition Examples.cursor
              <= List.length (tokens Examples.cursor))
    by (vm_compute; repeat constructor).
  split; [exact H|].
  destruct (makeErrorMsg_renders Examples.cursor (js "Parse error") H)
    as (l & c & ex & mk & Hanchor & -> & -> & _ & ->).
  simpl in Hanchor; destruct Hanchor as (token & Hn & -> & ->).
  injection Hn as <-; vm_compute; reflexivity.
Defined.

Lemma consume_advances_or_raises_witness :
  currentPosition Examples.cursor <= List.length (tokens Examples.cursor)
  /\ consume (js "PAREN") (js "Expected paren") Examples.cursor
     = advance Examples.cursor
  /\ exists rendered appended,
       consume (js "NUMBER") (js "Expected number") Examples.cursor
       = (Raise (Error_ rendered),
          mkParser 1 (tokens Examples.cursor) [appended]
                   (source Examples.cursor)).
Proof.
  assert (H : currentPosition Examples.cursor
              <= List.length (tokens Examples.cursor))
    by (vm_compute; repeat constructor).
  split; [exact H|]; split.
  - assert (T := consume_advances_or_raises Examples.cursor (js "PAREN")
                   (js "Expected paren") H).
    rewrite check_eta in T; simpl in T; exact (proj1 T).
  - assert (T := consume_advances_or_raises Examples.cursor (js "NUMBER")
                   (js "Expected number") H).
    rewrite check_eta in T; simpl in T.
    destruct T as (rendered & appended & _ & E).
    exists rendered, appended; exact E.
Defined.

End ParserSpec.


(** * The examples of the specification and of the tests, evaluated *)

Module Tests.
Import Lexer Parser Examples.

(** The example of the specification. *)
Example condition_categories :
  run CONDITION "if (x > 10)" ["WHITESPACE"%string]
  = Some [(js "KEYWORD", js "if"); (js "PAREN", js "(");
          (js "IDENTIFIER", js "x"); (js "OPERATOR", js ">");
          (js "NUMBER", js "10"); (js "PAREN", js ")")].
Proof. vm_compute; reflexivity. Qed.

(** The same with a tab for the first blank. *)
Example condition_with_tab :
  option_map (map snd)
    (run CONDITION
         (String (ascii_of_nat 105)
            (String (ascii_of_nat 102)
               (String (ascii_of_nat 9) "(x > 10)")))
         ["WHITESPACE"%string])
  = Some [js "if"; js "("; js "x"; js ">"; js "10"; js ")"].
Proof. vm_compute; reflexivity. Qed.

(** "should prefer longer matches". *)
Example prefers_longer :
  run SHORT_LONG "iffy" [] = Some [(js "LONG", js "iffy")].
Proof. vm_compute; reflexivity. Qed.

(** "should handle ties by preferring first match". *)
Example prefers_first : run TIE "abc" [] = Some [(js "FIRST", js "abc")].
Proof. vm_compute; reflexivity. Qed.

(** "should track line numbers with newlines" and "should reset column
    after newline". *)
Example lines_and_columns :
  match tokenize 3 fooBar [] WORDS with
  | Some (Normal toks, _) => map (fun tok => (line tok, column tok)) toks
  | _ => []
  end = [(0, 3); (1, 0); (1, 3)].
Proof. vm_compute; reflexivity. Qed.

(** "should return null when match is not at current position". *)
Example match_elsewhere :
  fst (match_ DIGIT (js "abc123") Lexer.new) = None.
Proof. vm_compute; reflexivity. Qed.

(** "should provide error details with line number". *)
Example error_line :
  match tokenize 3 (js "hello" ++ TextSymbol.NEWLINE ++ js "123") [] WORDS with
  | Some (Throw e, _) => Some (Errors.line e)
  | _ => None
  end = Some 1.
Proof. vm_compute; reflexivity. Qed.

(** "should update position during tokenization". *)
Example position_after :
  match tokenize 1 (js "abc") [] LETTER with
  | Some (_, lx) => Some (_start lx, _column lx)
  | None => None
  end = Some (3, 3).
Proof. vm_compute; reflexivity. Qed.

(** "should handle position 0 edge case" and "should point to correct
    column" of [makeErrorMsg]. *)
Example diagram_at_head :
  fst (makeErrorMsg (js "Parse error")
         (mkParser 0 condition [] (js "if (x > 10)")))
  = Ok (js "Parse error: " ++ [10; 9]%N
          ++ js "Near here (column 0 on line 0):" ++ [10; 9; 9]%N
          ++ js "if (x > 10)" ++ [10; 9; 9]%N ++ js "^").
Proof. vm_compute; reflexivity. Qed.

Example diagram_after_number :
  fst (makeErrorMsg (js "Parse error")
         (mkParser 5 condition [] (js "if (x > 10)")))
  = Ok (js "Parse error: " ++ [10; 9]%N
          ++ js "Near here (column 10 on line 0):" ++ [10; 9; 9]%N
          ++ js "if (x > 10)" ++ [10; 9; 9]%N ++ js "----------^").
Proof. vm_compute; reflexivity. Qed.

(** [toString] of a token. *)
Example token_toString :
  Layout.toString (mkToken (js "WORD") (js "foo") 0 3 0 3 (@None unit))
  = js "Token(WORD, foo, 0[3])".
Proof. vm_compute; reflexivity. Qed.

End Tests.

(** * Further properties of the tokenizer *)

Module LexerMore.
Import Lexer Scan Layout JsStringFacts LexerFacts.

Section WithValue.
Context {Value : Type}.

Implicit Types (lx : Lexer.t Value) (tok : Token Value)
         (tpl : TokenTemplate Value) (text : jsstring).

Local Arguments N.eqb : simpl never.
Local Arguments N.leb : simpl never.

(** A token of the result of a run was selected by [match] for a rule of
    the lexer, at a state that the run has reached. *)
Lemma returned_token fuel text filterTypes lx toks lx' tok :
  tokenize fuel text filterTypes lx = Some (Normal toks, lx') ->
  In tok toks ->
  In tok (tokens lx')
  /\ exists st tpl,
      Reached text lx st /\ In tpl (templates lx)
      /\ matchAt tpl text st = Some tok.
Proof.
  intros Hrun Hin; apply tokenize_inv in Hrun as (c0 & _ & HR & _ & Hc).
  assert (Htoks : toks = filter (kept filterTypes) (tokens lx')).
  { destruct c0; congruence. }
  rewrite Htoks in Hin; apply filter_In in Hin as (Hin & _).
  split; [exact Hin|].
  apply in_split in Hin as (pre & post & E).
  destruct (Reached_history _ _ _ HR _ _ _ E) as (HRp & _ & Hsel).
  apply select_Some in Hsel as (tpl & Htpl & Hm).
  rewrite (Reached_templates _ _ _ HRp) in Htpl.
  exists (replay lx pre), tpl; auto.
Qed.

(** X1. Over sound patterns, the lexeme of every token that [tokenize]
    returns is the slice of the text between the start and the end of the
    token, and the end lies within the text. *)
Theorem lexeme_is_slice fuel text filterTypes lx toks lx' :
  (forall tpl, In tpl (templates lx) -> substringAt (regexPattern tpl)) ->
  tokenize fuel text filterTypes lx = Some (Normal toks, lx') ->
  forall tok, In tok toks ->
    end_ tok <= List.length text
    /\ lexeme tok = sliceBetween text (start tok) (end_ tok).
Proof.
  intros Hsound Hrun tok Hin.
  destruct (returned_token _ _ _ _ _ _ _ Hrun Hin)
    as (_ & st & tpl & HR & Htpl & Hm).
  destruct (Reached_covers _ _ _ Hsound HR) as (Hle & _ & _).
  destruct (matchAt_prefix _ _ _ _ (Hsound _ Htpl) Hm Hle) as (Hend & _).
  split; [exact Hend|].
  apply matchAt_Some in Hm as (Hre & _ & Hst & He & _).
  apply (Hsound _ Htpl) in Hre; simpl in Hre; unfold slice in Hre.
  unfold sliceBetween; rewrite He, Hst.
  replace (_start st + List.length (lexeme tok) - _start st)
    with (List.length (lexeme tok)) by lia.
  symmetry; exact Hre.
Qed.

Lemma StronglySorted_snoc {A} (R : A -> A -> Prop) (l : list A) (x : A) :
  StronglySorted R l -> Forall (fun y => R y x) l ->
  StronglySorted R (l ++ [x]).
Proof.
  induction 1 as [|y l Hs IH Hy]; intros Hall; simpl.
  - constructor; constructor.
  - inversion Hall as [|? ? Hyx Hl]; subst; constructor; [auto|].
    apply Forall_app; split; [exact Hy | constructor; [exact Hyx|constructor]].
Qed.

Lemma StronglySorted_filter {A} (R : A -> A -> Prop) (f : A -> bool)
      (l : list A) :
  StronglySorted R l -> StronglySorted R (filter f l).
Proof.
  induction 1 as [|y l Hs IH Hy]; simpl; [constructor|].
  destruct (f y); [|exact IH].
  constructor; [exact IH|].
  apply Forall_forall; intros z Hz; apply filter_In in Hz as (Hz & _).
  revert z Hz; apply Forall_forall; exact Hy.
Qed.

Lemma Reached_sorted text lx0 lx :
  Reached text lx0 lx ->
  StronglySorted precedes (tokens lx)
  /\ Forall (fun t => end_ t <= _start lx /\ line t <= _line lx) (tokens lx).
Proof.
  induction 1 as [|lx tok HR (Hs & Hall) Hlt Hsel].
  - split; constructor.
  - apply select_Some in Hsel as (tpl & _ & Hm).
    assert (Hline := matchAt_line _ _ _ _ Hm).
    apply matchAt_Some in Hm as (_ & _ & Hst & He & _).
    rewrite accepted_tokens, accepted_start, accepted_line; split.
    + apply StronglySorted_snoc; [exact Hs|].
      revert Hall; apply Forall_impl; intros t (H1 & H2).
      unfold precedes; lia.
    + apply Forall_app; split.
      * revert Hall; apply Forall_impl; intros t (H1 & H2); lia.
      * constructor; [lia | constructor].
Qed.

(** X2. The tokens that [tokenize] returns stand in the order of the text,
    whatever was filtered: a token ends where a later one starts or before,
    and its line is not greater. *)
Theorem tokens_in_text_order fuel text filterTypes lx toks lx' :
  tokenize fuel text filterTypes lx = Some (Normal toks, lx') ->
  StronglySorted precedes toks.
Proof.
  intros Hrun; apply tokenize_inv in Hrun as (c0 & _ & HR & _ & Hc).
  assert (Htoks : toks = filter (kept filterTypes) (tokens lx')).
  { destruct c0; congruence. }
  subst toks; apply StronglySorted_filter, (Reached_sorted _ _ _ HR).
Qed.

(** X3. Every token that [tokenize] returns bears the category of a
    registered rule, and its value is the callback of that rule applied to
    its lexeme, or no value when the rule has no callback. *)
Theorem token_value_from_rule fuel text filterTypes lx toks lx' :
  tokenize fuel text filterTypes lx = Some (Normal toks, lx') ->
  forall tok, In tok toks ->
    exists tpl,
      In tpl (templates lx)
      /\ tokenType tok = ruleType tpl
      /\ value tok = option_map (fun cb => cb (lexeme tok)) (callback tpl).
Proof.
  intros Hrun tok Hin.
  destruct (returned_token _ _ _ _ _ _ _ Hrun Hin)
    as (_ & st & tpl & _ & Htpl & Hm).
  apply matchAt_Some in Hm as (_ & Hty & _ & _ & _ & Hv).
  exists tpl; auto.
Qed.


(** X5. Over sound patterns, a call of [tokenize] that throws leaves the
    getter [start] inside the text, at the end of the lexemes accepted so
    far, which make up the text before it; the line of the error is the
    number of newlines of that part of the text. *)
Theorem scan_state_after_throw fuel text filterTypes lx e lx' :
  (forall tpl, In tpl (templates lx) -> substringAt (regexPattern tpl)) ->
  tokenize fuel text filterTypes lx = Some (Throw e, lx') ->
  _start lx' < List.length text
  /\ List.concat (map lexeme (tokens lx')) = firstn (_start lx') text
  /\ Errors.line e = newlines (firstn (_start lx') text)
  /\ Errors.line e <= newlines text.
Proof.
  intros Hsound Hrun.
  apply tokenize_inv in Hrun as (c0 & _ & HR & Hstop & Hc).
  destruct c0 as [[]|e0]; [discriminate|].
  injection Hc as <-; destruct Hstop as (Hlt & _ & ->).
  destruct (Reached_covers _ _ _ Hsound HR) as (_ & Hcat & Hline).
  split; [exact Hlt|]; split; [exact Hcat|]; simpl.
  split; [exact Hline|].
  rewrite Hline; apply countUnit_le.
Qed.

Lemma accepted_tokens_advance text lx0 lx :
  (forall tpl, In tpl (templates lx0) -> neverEmpty (regexPattern tpl)) ->
  Reached text lx0 lx ->
  Forall (fun t => start t < end_ t /\ lexeme t <> []) (tokens lx).
Proof.
  intros Hne; induction 1 as [|lx tok HR IH Hlt Hsel]; [constructor|].
  rewrite accepted_tokens; apply Forall_app; split; [exact IH|].
  rewrite <- (Reached_templates _ _ _ HR) in Hne.
  assert (Hadv := select_advances _ _ _ Hne Hsel).
  apply select_Some in Hsel as (tpl & _ & Hm).
  apply matchAt_Some in Hm as (_ & _ & Hst & He & _).
  constructor; [|constructor]; split; [lia|].
  intros E; rewrite E in He; simpl in He; lia.
Qed.

Lemma length_concat_nonempty {A} (ls : list (list A)) :
  Forall (fun l => l <> []) ls ->
  List.length ls <= List.length (List.concat ls).
Proof.
  induction 1 as [|l ls Hl _ IH]; simpl; [lia|].
  rewrite length_app; destruct l; [congruence | simpl; lia].
Qed.

Lemma filter_length {A} (f : A -> bool) (l : list A) :
  List.length (filter f l) <= List.length l.
Proof. induction l as [|x l IH]; simpl; [|destruct (f x); simpl]; lia. Qed.

(** X6. Over sound patterns without zero-width match, every token that
    [tokenize] returns ends after its start, and there are at most as many
    tokens as the text has code units. *)
Theorem tokens_nonempty_and_bounded fuel text filterTypes lx toks lx' :
  (forall tpl, In tpl (templates lx) -> substringAt (regexPattern tpl)) ->
  (forall tpl, In tpl (templates lx) -> neverEmpty (regexPattern tpl)) ->
  tokenize fuel text filterTypes lx = Some (Normal toks, lx') ->
  Forall (fun tok => start tok < end_ tok) toks
  /\ List.length toks <= List.length text.
Proof.
  intros Hsound Hne Hrun.
  apply tokenize_inv in Hrun as (c0 & _ & HR & Hstop & Hc).
  destruct c0 as [[]|e]; [|discriminate]; simpl in Hstop.
  injection Hc as ->.
  assert (Hall := accepted_tokens_advance _ _ _ Hne HR).
  destruct (Reached_covers _ _ _ Hsound HR) as (Hle & Hcat & _).
  split.
  - apply Forall_forall; intros tok Hin; apply filter_In in Hin as (Hin & _).
    revert tok Hin; apply Forall_forall.
    revert Hall; apply Forall_impl; intros t (H & _); exact H.
  - eapply Nat.le_trans; [apply filter_length|].
    rewrite <- (length_map lexeme).
    eapply Nat.le_trans; [apply length_concat_nonempty|].
    + apply Forall_map; revert Hall; apply Forall_impl.
      intros t (_ & H); exact H.
    + rewrite Hcat, length_firstn; lia.
Qed.

(** *** A rule added after the others *)









(** X12. Filtering in two stages: the call with the categories of [f] and
    of [g] returns what the call with those of [f] returns, less the
    tokens of the categories of [g]. *)
Theorem filter_in_stages fuel text f g lx toks lx' :
  tokenize fuel text (f ++ g) lx = Some (Normal toks, lx') ->
  exists toks1,
    tokenize fuel text f lx = Some (Normal toks1, lx')
    /\ toks = filter (kept g) toks1.
Proof.
  intros Hrun; apply tokenize_inv in Hrun as (c0 & Hloop & _ & _ & Hc).
  destruct c0 as [[]|e]; [|discriminate]; injection Hc as ->.
  exists (filter (kept f) (tokens lx')); split.
  - unfold tokenize; rewrite Hloop; reflexivity.
  - induction (tokens lx') as [|t l IH]; simpl; [reflexivity|].
    assert (E : kept (f ++ g) t = (kept f t && kept g t)%bool).
    { unfold kept, includes; rewrite existsb_app, negb_orb; reflexivity. }
    rewrite E; destruct (kept f t); simpl; [|exact IH].
    destruct (kept g t); [rewrite IH; reflexivity | exact IH].
Qed.

(** X11. The error that [tokenize] throws has a column of 1 at least, and
    is the error that its own excerpt, line and column make: its message
    shows the column that it carries. *)
Theorem thrown_error_from_its_fields fuel text filterTypes lx e lx' :
  tokenize fuel text filterTypes lx = Some (Throw e, lx') ->
  1 <= Errors.column e
  /\ e = Errors.new (Errors.excerpt e) (Errors.line e) (Errors.column e)
  /\ exists head,
      Errors.message e
      = head ++ repeat_ TextSymbol.MINUS (Errors.column e)
             ++ TextSymbol.CARET.
Proof.
  intros Hrun; apply tokenize_inv in Hrun as (c0 & _ & _ & Hstop & Hc).
  destruct c0 as [[]|e0]; [discriminate|].
  injection Hc as <-; destruct Hstop as (_ & _ & ->).
  set (ex := nth_error (split TextSymbol.LF text) (_line lx')).
  unfold Errors.new; cbn [Errors.column Errors.excerpt Errors.line
                                        Errors.message].
  set (col := if _column lx' <=? 0 then 1 else _column lx').
  assert (Hcol : 1 <= col).
  { unfold col; destruct (Nat.leb_spec (_column lx') 0); lia. }
  replace (if col <=? 0 then 1 else col) with col
    by (destruct (Nat.leb_spec col 0); [lia | reflexivity]).
  split; [exact Hcol|]; split; [reflexivity|].
  exists (js "Lexer encountered an unexpected character at column "
             ++ dec col ++ js " on line " ++ dec (_line lx') ++ js ":"
             ++ [10; 9]%N ++ js "Near here:" ++ [10; 9; 9]%N ++ showOpt ex
             ++ [10; 9; 9]%N).
  repeat rewrite <- app_assoc; reflexivity.
Qed.

(** *** Columns *)

Lemma charCount_pairFree (s : jsstring) :
  pairFree s -> charCount s = List.length s.
Proof.
  unfold charCount; induction 1 as [|c s Hc Hs IH]; [reflexivity|].
  cbn [chars]; destruct s as [|d s]; [reflexivity|].
  rewrite Hc; cbn [andb]; cbn [List.length]; rewrite IH; reflexivity.
Qed.

Lemma pairFree_app (a b : jsstring) :
  pairFree (a ++ b) -> pairFree a /\ pairFree b.
Proof. apply Forall_app. Qed.

Lemma includesUnit_app (a b : jsstring) (c : N) :
  includesUnit (a ++ b) c = (includesUnit a c || includesUnit b c)%bool.
Proof. apply existsb_app. Qed.

Lemma newlines_without (s : jsstring) :
  includesUnit s TextSymbol.LF = false -> newlines s = 0.
Proof.
  induction s as [|x s IH]; [reflexivity|].
  rewrite includesUnit_cons, newlines_cons; intros H.
  apply orb_false_iff in H as (-> & Hs); rewrite (IH Hs); reflexivity.
Qed.

Lemma lastLine_app_without (a s : jsstring) :
  includesUnit s TextSymbol.LF = false ->
  lastLine (a ++ s) = lastLine a ++ s.
Proof.
  intros Hs; induction a as [|x a IH]; simpl.
  - apply lastLine_without; exact Hs.
  - rewrite !lastLine_cons, includesUnit_app, Hs, orb_false_r.
    destruct (N.eqb x TextSymbol.LF || includesUnit a TextSymbol.LF)%bool;
      [exact IH | reflexivity].
Qed.

Lemma lastLine_ends (a u : jsstring) :
  lastLine (a ++ u ++ [TextSymbol.LF]) = [].
Proof. rewrite app_assoc; apply (lastLine_after (a ++ u) []). Qed.

Lemma Reached_column text lx0 lx :
  (forall tpl, In tpl (templates lx0) -> substringAt (regexPattern tpl)) ->
  pairFree text ->
  Reached text lx0 lx ->
  Forall endsItsLine (tokens lx) ->
  _column lx = List.length (lastLine (firstn (_start lx) text))
  /\ Forall (fun tok =>
               column tok
               = List.length (lastLine (firstn (end_ tok) text)))
            (tokens lx).
Proof.
  intros Hsound Hfree; induction 1 as [|lx tok HR IH Hlt Hsel]; intros Hall.
  - split; [reflexivity | constructor].
  - rewrite accepted_tokens in Hall; apply Forall_app in Hall as (Hall & Htok).
    inversion Htok as [|? ? Hends _]; subst; clear Htok.
    destruct (IH Hall) as (Hcol & Hcols); clear IH.
    destruct (Reached_covers _ _ _ Hsound HR) as (Hle & _ & _).
    rewrite <- (Reached_templates _ _ _ HR) in Hsound.
    apply select_Some in Hsel as (tpl & Hin & Hm).
    destruct (matchAt_prefix _ _ _ _ (Hsound _ Hin) Hm Hle) as (Hend & Hpre).
    assert (Hline := matchAt_line _ _ _ _ Hm).
    assert (Hc := matchAt_column _ _ _ _ Hm).
    assert (Hlex : pairFree (lexeme tok)).
    { rewrite <- (firstn_skipn (end_ tok) text) in Hfree.
      apply pairFree_app in Hfree as (Hfree & _); rewrite Hpre in Hfree.
      apply pairFree_app in Hfree as (_ & Hfree); exact Hfree. }
    apply matchAt_Some in Hm as (_ & _ & Hst & He & _).
    rewrite accepted_tokens, accepted_start, accepted_column.
    assert (Hboth :
              (if line tok =? _line lx
               then _column lx + (end_ tok - start tok) else 0)
              = List.length (lastLine (firstn (end_ tok) text))
              /\ column tok
                 = List.length (lastLine (firstn (end_ tok) text))).
    { rewrite Hpre.
      destruct (includesUnit (lexeme tok) TextSymbol.LF) eqn:Ei.
      - destruct (Hends (proj1 (includesUnit_In _ _) Ei)) as (u & Eu).
        assert (Hn := LexerSpec.newlines_In _
                        (proj1 (includesUnit_In _ _) Ei)).
        destruct (Nat.eqb_spec (line tok) (_line lx)); [lia|].
        rewrite Hc, Eu, lastLine_ends.
        rewrite <- (app_nil_l (u ++ [TextSymbol.LF])), lastLine_ends.
        split; reflexivity.
      - rewrite (newlines_without _ Ei), Nat.add_0_r in Hline.
        rewrite Hline, Nat.eqb_refl, Hc.
        rewrite (lastLine_app_without _ _ Ei), length_app, <- Hcol.
        rewrite (charCount_pairFree _ Hlex), He, Hst.
        split; lia. }
    destruct Hboth as (Htrack & Hcolumn); split; [exact Htrack|].
    apply Forall_app; split; [exact Hcols|].
    constructor; [exact Hcolumn | constructor].
Qed.

(** X8. Over sound patterns, on a text without surrogate pair, when every
    accepted lexeme that contains a newline ends with it, the column of
    every accepted token is the number of code units of the text between
    the last newline before the end of the token and that end, and so is
    the getter [column] after the call, for the place where the scan
    stopped. *)
Theorem columns_count_from_last_newline fuel text filterTypes lx c lx' :
  (forall tpl, In tpl (templates lx) -> substringAt (regexPattern tpl)) ->
  pairFree text ->
  tokenize fuel text filterTypes lx = Some (c, lx') ->
  Forall endsItsLine (tokens lx') ->
  _column lx' = List.length (lastLine (firstn (_start lx') text))
  /\ forall tok, In tok (tokens lx') ->
       column tok = List.length (lastLine (firstn (end_ tok) text)).
Proof.
  intros Hsound Hfree Hrun Hall.
  apply tokenize_inv in Hrun as (c0 & _ & HR & _).
  destruct (Reached_column _ _ _ Hsound Hfree HR Hall) as (Hcol & Hcols).
  split; [exact Hcol | apply Forall_forall; exact Hcols].
Qed.

(** *** The diagram of the parser on the tokens of the lexer *)


(** X13. Over sound patterns, the line of every token that [tokenize]
    returns is the number of newlines of the text before the end of the
    token, whatever was filtered. *)
Theorem token_line_counts_newlines fuel text filterTypes lx toks lx' :
  (forall tpl, In tpl (templates lx) -> substringAt (regexPattern tpl)) ->
  tokenize fuel text filterTypes lx = Some (Normal toks, lx') ->
  forall tok, In tok toks ->
    line tok = newlines (firstn (end_ tok) text).
Proof.
  intros Hsound Hrun tok Hin.
  destruct (returned_token _ _ _ _ _ _ _ Hrun Hin)
    as (_ & st & tpl & HR & Htpl & Hm).
  destruct (Reached_covers _ _ _ Hsound HR) as (Hle & _ & Hline).
  destruct (matchAt_prefix _ _ _ _ (Hsound _ Htpl) Hm Hle) as (_ & Hpre).
  rewrite (matchAt_line _ _ _ _ Hm), Hline, Hpre.
  unfold newlines; rewrite countUnit_app; reflexivity.
Qed.


End WithValue.

Lemma lexeme_is_slice_witness :
  exists toks lx',
    tokenize 3 Examples.fooBar [js "NEWLINE"] Examples.WORDS
    = Some (Normal toks, lx')
    /\ map (fun tok => (start tok, end_ tok)) toks = [(0, 3); (4, 7)]
    /\ Forall (fun tok =>
                 end_ tok <= 7
                 /\ lexeme tok
                    = sliceBetween Examples.fooBar (start tok) (end_ tok))
              toks.
Proof.
  eexists; eexists.
  assert (H : tokenize 3 Examples.fooBar [js "NEWLINE"] Examples.WORDS
              = Some (_, _)) by (vm_compute; reflexivity).
  split; [exact H|]; split; [reflexivity|].
  apply Forall_forall; intros tok Hin.
  exact (lexeme_is_slice _ _ _ _ _ _ PatternFacts.WORDS_sound H tok Hin).
Defined.

Lemma tokens_in_text_order_witness :
  exists toks lx',
    tokenize 3 Examples.fooBar [js "NEWLINE"] Examples.WORDS
    = Some (Normal toks, lx')
    /\ map lexeme toks = [js "foo"; js "bar"]
    /\ StronglySorted precedes toks.
Proof.
  eexists; eexists.
  assert (H : tokenize 3 Examples.fooBar [js "NEWLINE"] Examples.WORDS
              = Some (_, _)) by (vm_compute; reflexivity).
  split; [exact H|]; split; [reflexivity|].
  exact (tokens_in_text_order _ _ _ _ _ _ H).
Defined.

Lemma token_value_from_rule_witness :
  exists toks lx',
    tokenize 1 (js "abc") [] Examples.COUNTED = Some (Normal toks, lx')
    /\ map value toks = [Some 3]
    /\ forall tok, In tok toks ->
         exists tpl,
           In tpl (templates Examples.COUNTED)
           /\ tokenType tok = ruleType tpl
           /\ value tok
              = option_map (fun cb => cb (lexeme tok)) (callback tpl).
Proof.
  eexists; eexists.
  assert (H : tokenize 1 (js "abc") [] Examples.COUNTED = Some (_, _))
    by (vm_compute; reflexivity).
  split; [exact H|]; split; [reflexivity|].
  exact (token_value_from_rule _ _ _ _ _ _ H).
Defined.


Lemma scan_state_after_throw_witness :
  exists e lx',
    tokenize 2 (js "abc123") [] Examples.LETTER = Some (Throw e, lx')
    /\ _start lx' < 6
    /\ List.concat (map lexeme (tokens lx')) = js "abc"
    /\ Errors.line e <= 0.
Proof.
  eexists; eexists.
  assert (H : tokenize 2 (js "abc123") [] Examples.LETTER = Some (_, _))
    by (vm_compute; reflexivity).
  split; [exact H|].
  destruct (scan_state_after_throw _ _ _ _ _ _ PatternFacts.LETTER_sound H)
    as (Hs & Hc & _ & Hl).
  split; [exact Hs|]; split; [exact Hc | exact Hl].
Defined.

Lemma tokens_nonempty_and_bounded_witness :
  exists toks lx',
    tokenize 3 Examples.fooBar [] Examples.WORDS = Some (Normal toks, lx')
    /\ Forall (fun tok => start tok < end_ tok) toks
    /\ List.length toks <= 7.
Proof.
  eexists; eexists.
  assert (H : tokenize 3 Examples.fooBar [] Examples.WORDS = Some (_, _))
    by (vm_compute; reflexivity).
  split; [exact H|].
  exact (tokens_nonempty_and_bounded _ _ _ _ _ _ PatternFacts.WORDS_sound
           PatternFacts.WORDS_neverEmpty H).
Defined.



Lemma filter_in_stages_witness :
  let text := js "a b" ++ TextSymbol.NEWLINE ++ js "c" in
  exists toks lx' toks1,
    tokenize 5 text ([js "SPACE"] ++ [js "NEWLINE"]) Examples.WORDS
    = Some (Normal toks, lx')
    /\ tokenize 5 text [js "SPACE"] Examples.WORDS
       = Some (Normal toks1, lx')
    /\ map lexeme toks1 = [js "a"; js "b"; TextSymbol.NEWLINE; js "c"]
    /\ map lexeme toks = [js "a"; js "b"; js "c"]
    /\ toks = filter (kept [js "NEWLINE"]) toks1.
Proof.
  intros text; eexists; eexists.
  assert (H : tokenize 5 text ([js "SPACE"] ++ [js "NEWLINE"])
                       Examples.WORDS = Some (_, _))
    by (vm_compute; reflexivity).
  destruct (filter_in_stages _ _ _ _ _ _ _ H) as (toks1 & H1 & E).
  exists toks1; split; [exact H|]; split; [exact H1|].
  assert (H1' : tokenize 5 text [js "SPACE"] Examples.WORDS = Some (_, _))
    by (vm_compute; reflexivity).
  rewrite H1' in H1; injection H1 as <-.
  split; [reflexivity|]; split; [reflexivity | exact E].
Defined.

Lemma thrown_error_from_its_fields_witness :
  exists e lx',
    tokenize 1 (js "1") [] Examples.LETTER = Some (Throw e, lx')
    /\ 1 <= Errors.column e
    /\ e = Errors.new (Errors.excerpt e) (Errors.line e) (Errors.column e).
Proof.
  eexists; eexists.
  assert (H : tokenize 1 (js "1") [] Examples.LETTER = Some (_, _))
    by (vm_compute; reflexivity).
  split; [exact H|].
  destruct (thrown_error_from_its_fields _ _ _ _ _ _ H) as (Hc & He & _).
  split; [exact Hc | exact He].
Defined.

Lemma token_line_counts_newlines_witness :
  exists toks lx',
    tokenize 3 Examples.fooBar [js "NEWLINE"] Examples.WORDS
    = Some (Normal toks, lx')
    /\ map line toks = [0; 1]
    /\ forall tok, In tok toks ->
         line tok = newlines (firstn (end_ tok) Examples.fooBar).
Proof.
  eexists; eexists.
  assert (H : tokenize 3 Examples.fooBar [js "NEWLINE"] Examples.WORDS
              = Some (_, _)) by (vm_compute; reflexivity).
  split; [exact H|]; split; [reflexivity|].
  exact (token_line_counts_newlines _ _ _ _ _ _ PatternFacts.WORDS_sound H).
Defined.

Lemma fooBar_pairFree : pairFree Examples.fooBar.
Proof. repeat constructor. Qed.

Lemma columns_count_from_last_newline_witness :
  exists c lx',
    tokenize 3 Examples.fooBar [] Examples.WORDS = Some (c, lx')
    /\ Forall endsItsLine (tokens lx')
    /\ map column (tokens lx') = [3; 0; 3]
    /\ forall tok, In tok (tokens lx') ->
         column tok
         = List.length (lastLine (firstn (end_ tok) Examples.fooBar)).
Proof.
  eexists; eexists.
  assert (H : tokenize 3 Examples.fooBar [] Examples.WORDS = Some (_, _))
    by (vm_compute; reflexivity).
  assert (Hends : Forall (@endsItsLine unit)
                    [mkToken (js "WORD") (js "foo") 0 3 0 3 None;
                     mkToken (js "NEWLINE") TextSymbol.NEWLINE 3 4 1 0 None;
                     mkToken (js "WORD") (js "bar") 4 7 1 3 None]).
  { constructor; [|constructor; [|constructor; [|constructor]]].
    - intros [E|[E|[E|[]]]]; discriminate E.
    - intros _; exists []; reflexivity.
    - intros [E|[E|[E|[]]]]; discriminate E. }
  split; [exact H|]; split; [exact Hends|]; split; [reflexivity|].
  exact (proj2 (columns_count_from_last_newline _ _ _ _ _ _
                  PatternFacts.WORDS_sound fooBar_pairFree H Hends)).
Defined.


End LexerMore.

(** * Further properties of the cursor *)

Module ParserMore.
Import Parser.

Section WithValue.
Context {Value : Type}.

Implicit Types (p : Parser.t Value).

(** X10. [makeErrorMsg] renders exactly when the position is within the
    tokens or at their end; beyond it the token before the position is
    [undefined], and the method raises a [TypeError]; either way the parser
    is left as it was. *)
Theorem makeErrorMsg_in_bounds p errorMsg :
  (currentPosition p <= List.length (tokens p) ->
   exists rendered, makeErrorMsg errorMsg p = (Ok rendered, p))
  /\ (List.length (tokens p) < currentPosition p ->
      makeErrorMsg errorMsg p = (Raise TypeError, p)).
Proof.
  unfold makeErrorMsg, bind, gets, ret, raise.
  destruct (currentPosition p) as [|k] eqn:Ek; cbn [Nat.eqb negb].
  - split; [eauto | lia].
  - rewrite Nat.sub_succ, Nat.sub_0_r.
    destruct (nth_error (tokens p) k) as [token|] eqn:En; split.
    + eauto.
    + intros H; assert (Hk := proj2 (nth_error_None (tokens p) k)).
      rewrite En in Hk; assert (X : List.length (tokens p) <= k) by lia.
      apply Hk in X; discriminate.
    + apply nth_error_None in En; lia.
    + reflexivity.
Qed.

End WithValue.

Lemma makeErrorMsg_in_bounds_witness :
  currentPosition Examples.cursor <= List.length (tokens Examples.cursor)
  /\ (exists rendered,
        makeErrorMsg (js "Parse error") Examples.cursor
        = (Ok rendered, Examples.cursor))
  /\ List.length Examples.condition < 8
  /\ makeErrorMsg (js "Parse error")
        (mkParser 8 Examples.condition [] (js "if (x > 10)"))
     = (Raise TypeError,
        mkParser 8 Examples.condition [] (js "if (x > 10)")).
Proof.
  assert (H1 : currentPosition Examples.cursor
               <= List.length (tokens Examples.cursor))
    by (vm_compute; repeat constructor).
  assert (H2 : List.length
                 (tokens (mkParser 8 Examples.condition []
                                   (js "if (x > 10)")))
               < currentPosition (mkParser 8 Examples.condition []
                                           (js "if (x > 10)")))
    by (vm_compute; repeat constructor).
  split; [exact H1|]; split.
  - exact (proj1 (makeErrorMsg_in_bounds Examples.cursor (js "Parse error"))
             H1).
  - split; [exact H2|].
    exact (proj2 (makeErrorMsg_in_bounds _ (js "Parse error")) H2).
Defined.

End ParserMore.

(** * The lexer over patterns that keep state: history *)

Module StatefulSpec.
Import Stateful.

Section WithValue.
Context {Value : Type}.

Implicit Types (lx : Stateful.t Value) (tpl : TokenTemplate Value)
         (re : RegExp) (text s : jsstring).

Lemma sameRegExp_refl re : sameRegExp re re.
Proof. repeat split. Qed.

Lemma sameRegExp_setLastIndex (a b : RegExp) (v w : nat) :
  sameRegExp a b -> sameRegExp (setLastIndex v a) (setLastIndex w b).
Proof. intros H; exact H. Qed.

(** Matching changes [lastIndex] at most. *)
Lemma builtinExecFrom_keeps n re s i :
  sameRegExp re (snd (builtinExecFrom n re s i)).
Proof.
  revert i; induction n as [|n IH]; intros i; cbn [builtinExecFrom];
    (destruct (List.length s <? i);
     [destruct (global re || sticky re)%bool; repeat split|]);
    (destruct (matcher re s i);
     [destruct (global re || sticky re)%bool; repeat split|]);
    (destruct (sticky re); [repeat split|]).
  - repeat split.
  - apply IH.
Qed.

Lemma stringMatch_keeps s re : sameRegExp re (snd (stringMatch s re)).
Proof.
  unfold stringMatch, builtinExec; destruct (global re) eqn:G;
    [simpl; repeat split | apply builtinExecFrom_keeps].
Qed.

(** Without the [y] flag, the match does not depend on [lastIndex]. *)
Lemma builtinExecFrom_same n (a b : RegExp) s i :
  sameRegExp a b -> global a = false -> sticky a = false ->
  fst (builtinExecFrom n a s i) = fst (builtinExecFrom n b s i).
Proof.
  intros (Hg & Hs & Hu & Hm) Ga Sa.
  revert i; induction n as [|n IH]; intros i; cbn [builtinExecFrom];
    rewrite <- ?Hg, <- ?Hs, <- ?Hm, <- ?Hu, ?Ga, ?Sa;
    (destruct (List.length s <? i); [reflexivity|]);
    (destruct (matcher a s i); [reflexivity|]).
  - reflexivity.
  - apply IH.
Qed.

Lemma stringMatch_same s (a b : RegExp) :
  sameRegExp a b -> sticky a = false ->
  fst (stringMatch s a) = fst (stringMatch s b).
Proof.
  intros H Sa; assert (H' := H); destruct H' as (Hg & Hs & _).
  unfold stringMatch, builtinExec; rewrite <- Hg, <- Hs, Sa.
  destruct (global a) eqn:Ga; [reflexivity|].
  cbn [orb]; apply builtinExecFrom_same; assumption.
Qed.

Lemma match_keeps tpl text lx : sameTemplate tpl (snd (match_ tpl text lx)).
Proof.
  unfold match_.
  assert (H := stringMatch_keeps (slice text (_start lx)) (regexPattern tpl)).
  destruct (stringMatch (slice text (_start lx)) (regexPattern tpl))
    as [[m|] re]; simpl in H.
  - destruct (negb (Lexer.index m =? 0)); [repeat split; apply H|].
    destruct (fold_left Lexer.scanChar (chars (Lexer.matched m))
                        (_line lx, _column lx)).
    repeat split; apply H.
  - repeat split; apply H.
Qed.

Lemma match_result tpl text lx :
  fst (match_ tpl text lx)
  = match fst (stringMatch (slice text (_start lx)) (regexPattern tpl)) with
    | None => None
    | Some m =>
      if negb (Lexer.index m =? 0) then None
      else
        let pos := fold_left Lexer.scanChar (chars (Lexer.matched m))
                             (_line lx, _column lx) in
        Some (mkToken (ruleType tpl) (Lexer.matched m) (_start lx)
                      (_start lx + List.length (Lexer.matched m))
                      (fst pos) (snd pos)
                      (option_map (fun cb => cb (Lexer.matched m))
                                  (callback tpl)))
    end.
Proof.
  unfold match_.
  destruct (stringMatch (slice text (_start lx)) (regexPattern tpl))
    as [[m|] re]; simpl; [|reflexivity].
  destruct (negb (Lexer.index m =? 0)); [reflexivity|].
  destruct (fold_left Lexer.scanChar (chars (Lexer.matched m))
                      (_line lx, _column lx)); reflexivity.
Qed.

Lemma match_same (a b : TokenTemplate Value) text lx lx' :
  sameTemplate a b -> sticky (regexPattern a) = false ->
  _start lx = _start lx' -> _line lx = _line lx' ->
  _column lx = _column lx' ->
  fst (match_ a text lx) = fst (match_ b text lx').
Proof.
  intros (Hty & Hcb & Hre) Sa Es El Ec.
  rewrite !match_result, <- Es, <- El, <- Ec, <- Hty, <- Hcb.
  rewrite (stringMatch_same _ _ _ Hre Sa); reflexivity.
Qed.

Lemma forTemplates_keeps (ts : list (TokenTemplate Value)) text acc lx :
  Forall2 sameTemplate ts (snd (forTemplates ts text acc lx)).
Proof.
  revert acc; induction ts as [|tpl ts IH]; intros acc; simpl;
    [constructor|].
  assert (H := match_keeps tpl text lx).
  destruct (match_ tpl text lx) as [token tpl']; simpl in H.
  match goal with
  | |- context [forTemplates ts text ?a lx] =>
    specialize (IH a); destruct (forTemplates ts text a lx) as [found rest]
  end.
  constructor; [exact H | exact IH].
Qed.

Lemma forTemplates_same (ts ts' : list (TokenTemplate Value)) text acc
      lx lx' :
  Forall2 sameTemplate ts ts' ->
  Forall (fun tpl => sticky (regexPattern tpl) = false) ts ->
  _start lx = _start lx' -> _line lx = _line lx' ->
  _column lx = _column lx' ->
  fst (forTemplates ts text acc lx) = fst (forTemplates ts' text acc lx').
Proof.
  intros Hts; revert acc; induction Hts as [|a b ts ts' Hab Hts IH];
    intros acc Hns Es El Ec; simpl; [reflexivity|].
  inversion Hns as [|? ? Sa Hns']; subst.
  assert (H := match_same a b text lx lx' Hab Sa Es El Ec).
  destruct (match_ a text lx) as [token a'];
    destruct (match_ b text lx') as [token' b']; simpl in H; subst token'.
  match goal with
  | |- context [forTemplates ts text ?x lx] =>
    specialize (IH x Hns' Es El Ec);
      destruct (forTemplates ts text x lx) as [found rest];
      destruct (forTemplates ts' text x lx') as [found' rest']
  end.
  exact IH.
Qed.

Lemma noSticky_same (ts ts' : list (TokenTemplate Value)) :
  Forall2 sameTemplate ts ts' ->
  Forall (fun tpl => sticky (regexPattern tpl) = false) ts ->
  Forall (fun tpl => sticky (regexPattern tpl) = false) ts'.
Proof.
  induction 1 as [|a b ts ts' (_ & _ & _ & Hs & _) _ IH]; intros H;
    [constructor|].
  inversion H; subst; constructor; [congruence | auto].
Qed.

Lemma Forall2_sameTemplate_refl (l : list (TokenTemplate Value)) :
  Forall2 sameTemplate l l.
Proof. induction l; constructor; [repeat split | assumption]. Qed.

Lemma Forall2_sameTemplate_trans (l1 l2 l3 : list (TokenTemplate Value)) :
  Forall2 sameTemplate l1 l2 -> Forall2 sameTemplate l2 l3 ->
  Forall2 sameTemplate l1 l3.
Proof.
  intros H; revert l3; induction H as [|a b l1 l2 Hab _ IH]; intros l3 H3;
    inversion H3 as [|? c ? l3' Hbc H3']; subst; constructor; [|auto].
  destruct Hab as (H1 & H2 & G1 & S1 & U1 & M1).
  destruct Hbc as (H1' & H2' & G2 & S2 & U2 & M2).
  repeat split; congruence.
Qed.

Lemma Forall2_sameTemplate_sym (l1 l2 : list (TokenTemplate Value)) :
  Forall2 sameTemplate l1 l2 -> Forall2 sameTemplate l2 l1.
Proof.
  induction 1 as [|a b l1 l2 (H1 & H2 & G & S & U & M) _ IH];
    constructor; [repeat split; congruence | exact IH].
Qed.

(** *** The [while] loop *)

Lemma whileLoop_keeps fuel text lx c lx' :
  whileLoop fuel text lx = Some (c, lx') ->
  Forall2 sameTemplate (templates lx) (templates lx').
Proof.
  revert lx; induction fuel as [|fuel IH]; intros lx; simpl;
    destruct (_start lx <? List.length text).
  - discriminate.
  - intros H; injection H as _ <-; apply Forall2_sameTemplate_refl.
  - assert (Hk := forTemplates_keeps (templates lx) text None lx).
    destruct (forTemplates (templates lx) text None lx) as [[b|] ts];
      simpl in Hk.
    + intros H; apply IH in H; simpl in H.
      eapply Forall2_sameTemplate_trans; [exact Hk | exact H].
    + intros H; injection H as _ <-; exact Hk.
  - intros H; injection H as _ <-; apply Forall2_sameTemplate_refl.
Qed.

Lemma whileLoop_same fuel text lx lx' :
  sameLexer lx lx' -> noSticky lx ->
  match whileLoop fuel text lx, whileLoop fuel text lx' with
  | Some (c, l), Some (c', l') => c = c' /\ sameLexer l l'
  | None, None => True
  | _, _ => False
  end.
Proof.
  revert lx lx'; induction fuel as [|fuel IH];
    intros lx lx' (Hts & Etok & Es & El & Ec) Hns; simpl; rewrite <- Es;
    destruct (_start lx <? List.length text);
    try exact I; try (split; [reflexivity | repeat split; assumption]).
  assert (Hf := forTemplates_same _ _ text None lx lx' Hts Hns Es El Ec).
  assert (Hk := forTemplates_keeps (templates lx) text None lx).
  assert (Hk' := forTemplates_keeps (templates lx') text None lx').
  destruct (forTemplates (templates lx) text None lx) as [found ts].
  destruct (forTemplates (templates lx') text None lx') as [found' ts'].
  simpl in Hf, Hk, Hk'; subst found'.
  assert (Hts' : Forall2 sameTemplate ts ts').
  { eapply Forall2_sameTemplate_trans;
      [apply Forall2_sameTemplate_sym; exact Hk|].
    eapply Forall2_sameTemplate_trans; [exact Hts | exact Hk']. }
  destruct found as [b|].
  - apply IH.
    + unfold accept; simpl; rewrite <- Etok, <- El, <- Ec.
      repeat split; assumption.
    + unfold noSticky, accept; simpl.
      apply (noSticky_same _ _ Hk Hns).
  - simpl; rewrite <- El, <- Ec; split; [reflexivity|].
    repeat split; assumption.
Qed.

Lemma whileLoop_mono_stateful fuel fuel' text lx r :
  whileLoop fuel text lx = Some r -> fuel <= fuel' ->
  whileLoop fuel' text lx = Some r.
Proof.
  revert fuel' lx; induction fuel as [|fuel IH]; intros fuel' lx H Hle.
  - destruct fuel'; simpl in *;
      destruct (_start lx <? List.length text); congruence.
  - destruct fuel' as [|fuel']; [lia|]; simpl in *.
    destruct (_start lx <? List.length text); [|exact H].
    destruct (forTemplates (templates lx) text None lx) as [[b|] ts];
      [|exact H].
    apply IH; [exact H | lia].
Qed.

(** *** [tokenize] *)

Lemma tokenize_keeps fuel text filterTypes lx c lx' :
  tokenize fuel text filterTypes lx = Some (c, lx') ->
  Forall2 sameTemplate (templates lx) (templates lx').
Proof.
  unfold tokenize.
  destruct (whileLoop fuel text (restart lx)) as [[c0 l]|] eqn:E;
    [|discriminate].
  apply whileLoop_keeps in E; simpl in E.
  destruct c0; intros H; injection H as _ <-; exact E.
Qed.

Lemma tokenize_mono fuel fuel' text filterTypes lx r :
  tokenize fuel text filterTypes lx = Some r -> fuel <= fuel' ->
  tokenize fuel' text filterTypes lx = Some r.
Proof.
  unfold tokenize; intros H Hle.
  destruct (whileLoop fuel text (restart lx)) as [r0|] eqn:E;
    [|discriminate].
  rewrite (whileLoop_mono_stateful _ _ _ _ _ E Hle); exact H.
Qed.

Lemma tokenize_same fuel text filterTypes lx lx' :
  Forall2 sameTemplate (templates lx) (templates lx') -> noSticky lx ->
  option_map fst (tokenize fuel text filterTypes lx)
  = option_map fst (tokenize fuel text filterTypes lx').
Proof.
  intros Hts Hns; unfold tokenize.
  assert (H := whileLoop_same fuel text (restart lx) (restart lx')).
  destruct (whileLoop fuel text (restart lx)) as [[c l]|];
    destruct (whileLoop fuel text (restart lx')) as [[c' l']|];
    try (exfalso; apply H; [repeat split; exact Hts | exact Hns]);
    [|reflexivity].
  destruct H as (<- & _ & Etok & _); [repeat split; exact Hts | exact Hns|].
  destruct c; simpl; rewrite ?Etok; reflexivity.
Qed.

(** C9, as amended.  On a lexer none of whose patterns has the [y] flag,
    [tokenize] starts from the rules alone: after any earlier call on the
    instance, whatever it returned or threw and whatever it left in the
    scan state and in the [lastIndex] of the patterns, a call completes as
    it does on the instance before that call, and two calls in a row with
    the same text and the same filter complete alike, whatever the bounds
    they ran under. *)
Theorem tokenize_ignores_history_without_sticky lx fuel0 text0 filter0 c0
        lx0 :
  noSticky lx ->
  tokenize fuel0 text0 filter0 lx = Some (c0, lx0) ->
  forall text filterTypes,
    (forall fuel,
       option_map fst (tokenize fuel text filterTypes lx0)
       = option_map fst (tokenize fuel text filterTypes lx))
    /\ (forall fuel1 fuel2 c1 lx1 c2 lx2,
          tokenize fuel1 text filterTypes lx0 = Some (c1, lx1) ->
          tokenize fuel2 text filterTypes lx1 = Some (c2, lx2) ->
          c1 = c2).
Proof.
  intros Hns Hrun text filterTypes.
  assert (H0 := tokenize_keeps _ _ _ _ _ _ Hrun).
  assert (Hns0 : noSticky lx0) by exact (noSticky_same _ _ H0 Hns).
  split.
  - intros fuel; symmetry; apply tokenize_same; assumption.
  - intros fuel1 fuel2 c1 lx1 c2 lx2 H1 H2.
    assert (H01 := tokenize_keeps _ _ _ _ _ _ H1).
    apply (tokenize_mono _ (Nat.max fuel1 fuel2)) in H1;
      [|apply Nat.le_max_l].
    apply (tokenize_mono _ (Nat.max fuel1 fuel2)) in H2;
      [|apply Nat.le_max_r].
    assert (E := tokenize_same (Nat.max fuel1 fuel2) text filterTypes
                   lx0 lx1 H01 Hns0).
    rewrite H1, H2 in E; simpl in E; congruence.
Qed.

End WithValue.

(** Against C9 as stated.  With the rule [/a/y], the first call on "a"
    returns the token and leaves [lastIndex] at 1; the second call on the
    same text matches from there, finds nothing, and throws. *)
Lemma sticky_rule_counterexample :
  let a := mkToken (js "A") (js "a") 0 1 0 1 (@None unit) in
  let rule i :=
    mkTemplate (js "A")
      (mkRegExp false true false i (StatefulExamples.literalAt (js "a")))
      None in
  let lx1 := mkLexer [rule 1] [a] 1 0 1 in
  let lx2 := mkLexer [rule 0] [] 0 0 0 in
  templates StatefulExamples.STICKY = [rule 0]
  /\ tokenize 1 (js "a") [] StatefulExamples.STICKY
     = Some (Lexer.Normal [a], lx1)
  /\ tokenize 1 (js "a") [] lx1
     = Some (Lexer.Throw (Errors.new (Some (js "a")) 0 0), lx2).
Proof.
  intros a rule lx1 lx2; split; [reflexivity|]; split;
    vm_compute; reflexivity.
Qed.

Lemma WORD_G_noSticky : noSticky StatefulExamples.WORD_G.
Proof. repeat constructor. Qed.

Lemma tokenize_ignores_history_without_sticky_witness :
  noSticky StatefulExamples.WORD_G
  /\ exists c0 lx0,
      tokenize 1 (js "abc") [] StatefulExamples.WORD_G = Some (c0, lx0)
      /\ (_start lx0, _column lx0, List.length (tokens lx0)) = (3, 3, 1)
      /\ map (fun tpl => lastIndex (regexPattern tpl))
             (templates StatefulExamples.WORD_G) = [0; 5]
      /\ map (fun tpl => lastIndex (regexPattern tpl)) (templates lx0)
         = [0; 0]
      /\ (forall fuel,
            option_map fst (tokenize fuel (js "ab1") [] lx0)
            = option_map fst
                (tokenize fuel (js "ab1") [] StatefulExamples.WORD_G))
      /\ forall fuel1 fuel2 c1 lx1 c2 lx2,
           tokenize fuel1 (js "ab1") [] lx0 = Some (c1, lx1) ->
           tokenize fuel2 (js "ab1") [] lx1 = Some (c2, lx2) ->
           c1 = c2.
Proof.
  split; [exact WORD_G_noSticky|].
  eexists; eexists.
  assert (H : tokenize 1 (js "abc") [] StatefulExamples.WORD_G
              = Some (_, _)) by (vm_compute; reflexivity).
  split; [exact H|]; split; [reflexivity|]; split; [reflexivity|].
  split; [reflexivity|].
  exact (tokenize_ignores_history_without_sticky _ _ _ _ _ _
           WORD_G_noSticky H (js "ab1") []).
Defined.

End StatefulSpec.

(** * The two embeddings of the lexer agree without the [y] flag *)

Module StatefulBridgeFacts.
Import LexerFacts StatefulBridge.

Section WithValue.
Context {Value : Type}.

Lemma standsFor_same (ptpl : Lexer.TokenTemplate Value)
      (tpl tpl' : Stateful.TokenTemplate Value) :
  standsFor ptpl tpl -> Stateful.sameTemplate tpl tpl' ->
  Stateful.sticky (Stateful.regexPattern tpl) = false ->
  standsFor ptpl tpl'.
Proof.
  intros (Hty & Hcb & Hre) (Hty' & Hcb' & Hre') Hs.
  split; [congruence|]; split; [congruence|].
  intros s; rewrite Hre; apply StatefulSpec.stringMatch_same; assumption.
Qed.

Lemma Forall2_standsFor_same (pts : list (Lexer.TokenTemplate Value))
      (ts ts' : list (Stateful.TokenTemplate Value)) :
  Forall2 standsFor pts ts -> Forall2 Stateful.sameTemplate ts ts' ->
  Forall (fun tpl => Stateful.sticky (Stateful.regexPattern tpl) = false)
         ts ->
  Forall2 standsFor pts ts'.
Proof.
  intros H; revert ts'; induction H as [|p t pts ts Hpt _ IH];
    intros ts' Hts Hns; inversion Hts; subst; [constructor|].
  inversion Hns; subst; constructor; [|auto].
  eapply standsFor_same; eassumption.
Qed.

Lemma match_bridge (ptpl : Lexer.TokenTemplate Value)
      (tpl : Stateful.TokenTemplate Value) text plx lx :
  standsFor ptpl tpl ->
  Lexer._start plx = Stateful._start lx ->
  Lexer._line plx = Stateful._line lx ->
  Lexer._column plx = Stateful._column lx ->
  Scan.matchAt ptpl text plx = fst (Stateful.match_ tpl text lx).
Proof.
  intros (Hty & Hcb & Hre) Es El Ec.
  rewrite StatefulSpec.match_result, <- Es, <- El, <- Ec, <- Hty, <- Hcb,
    <- Hre.
  unfold Scan.matchAt, Lexer.match_, Lexer.bind, Lexer.gets, Lexer.ret;
    simpl.
  destruct (Lexer.regexPattern ptpl (slice text (Lexer._start plx)))
    as [m|]; [|reflexivity].
  destruct (negb (Lexer.index m =? 0)); [reflexivity|].
  destruct (fold_left Lexer.scanChar (chars (Lexer.matched m))
                      (Lexer._line plx, Lexer._column plx)); reflexivity.
Qed.

Lemma forTemplates_bridge (pts : list (Lexer.TokenTemplate Value))
      (ts : list (Stateful.TokenTemplate Value)) text acc plx lx :
  Forall2 standsFor pts ts ->
  Lexer._start plx = Stateful._start lx ->
  Lexer._line plx = Stateful._line lx ->
  Lexer._column plx = Stateful._column lx ->
  fold_left (Scan.consider text plx) pts acc
  = fst (Stateful.forTemplates ts text acc lx).
Proof.
  intros H Es El Ec; revert acc; induction H as [|p t pts ts Hpt _ IH];
    intros acc; simpl; [reflexivity|].
  unfold Scan.consider at 2.
  rewrite (match_bridge p t text plx lx Hpt Es El Ec).
  destruct (Stateful.match_ t text lx) as [token t']; simpl.
  match goal with
  | |- context [Stateful.forTemplates ts text ?a lx] =>
    rewrite (IH a); destruct (Stateful.forTemplates ts text a lx)
  end.
  reflexivity.
Qed.

Lemma whileLoop_bridge fuel text (plx : Lexer.t Value)
      (lx : Stateful.t Value) :
  lexerStandsFor plx lx -> Stateful.noSticky lx ->
  match Lexer.whileLoop fuel text plx, Stateful.whileLoop fuel text lx with
  | Some (c, pl), Some (c', l) => c = c' /\ lexerStandsFor pl l
  | None, None => True
  | _, _ => False
  end.
Proof.
  revert plx lx; induction fuel as [|fuel IH];
    intros plx lx (Hts & Etok & Es & El & Ec) Hns.
  - rewrite whileLoop_0; simpl; rewrite Es.
    destruct (Stateful._start lx <? List.length text); [exact I|].
    split; [reflexivity | repeat split; assumption].
  - rewrite whileLoop_S, select_fold; simpl; rewrite Es.
    destruct (Stateful._start lx <? List.length text);
      [|split; [reflexivity | repeat split; assumption]].
    rewrite (forTemplates_bridge _ _ text None plx lx Hts Es El Ec).
    assert (Hk := StatefulSpec.forTemplates_keeps
                    (Stateful.templates lx) text None lx).
    destruct (Stateful.forTemplates (Stateful.templates lx) text None lx)
      as [[b|] ts]; simpl in Hk |- *.
    + apply IH.
      * rewrite accepted_eta; unfold Stateful.accept; simpl.
        rewrite Etok, El, Ec.
        destruct (line b =? Stateful._line lx); repeat split;
          exact (Forall2_standsFor_same _ _ _ Hts Hk Hns).
      * exact (StatefulSpec.noSticky_same _ _ Hk Hns).
    + rewrite El, Ec; split; [reflexivity|]; repeat split; try assumption.
      exact (Forall2_standsFor_same _ _ _ Hts Hk Hns).
Qed.

(** On a lexer none of whose patterns has the [y] flag, [tokenize] over
    the patterns with state completes as [tokenize] over the patterns as
    functions does. *)
Lemma tokenize_bridge fuel text filterTypes (plx : Lexer.t Value)
      (lx : Stateful.t Value) :
  lexerStandsFor plx lx -> Stateful.noSticky lx ->
  option_map fst (Stateful.tokenize fuel text filterTypes lx)
  = option_map fst (Lexer.tokenize fuel text filterTypes plx).
Proof.
  intros (Hts & _) Hns; unfold Stateful.tokenize, Lexer.tokenize.
  assert (H := whileLoop_bridge fuel text (Lexer.restart plx)
                 (Stateful.restart lx)).
  destruct (Lexer.whileLoop fuel text (Lexer.restart plx)) as [[c pl]|];
    destruct (Stateful.whileLoop fuel text (Stateful.restart lx))
      as [[c' l]|];
    try (exfalso; apply H; [repeat split; exact Hts | exact Hns]);
    [|reflexivity].
  destruct H as (<- & _ & Etok & _); [repeat split; exact Hts | exact Hns|].
  destruct c; simpl; rewrite ?Etok; reflexivity.
Qed.

Lemma plain_standsFor (lx : Stateful.t Value) : lexerStandsFor (plain lx) lx.
Proof.
  repeat split; simpl.
  induction (Stateful.templates lx); simpl; constructor;
    [repeat split | assumption].
Qed.

End WithValue.
End StatefulBridgeFacts.
